(** * orbit-gateway: admission control and dispatch

    A shallow embedding of the gateway's Python sources
    ([gateway/store.py], [gateway/auth.py], [gateway/policy.py],
    [gateway/middleware.py] and the request handlers of [main.py]) together
    with the properties its design document states about them.

    Conventions of the embedding
    - Python [int] is [Z]; Python [str] is [string], a sequence of
      characters with codes below 256 (the decoding Starlette applies to
      header values).
    - The numbers of the Lua script that Redis runs are doubles; the
      script meets integers only, and a double is given by the integer it
      holds ([Lua.number]).
    - Values read from the YAML policy document are dynamically typed; they
      are embedded in the inductive [value], and the operations Python
      resolves at run time ([.get], truthiness, iteration) raise the
      exception Python raises when the value has the wrong type.
    - The Redis server is modelled as a finite map from keys to integer
      counters with an optional expiry instant in milliseconds; every
      command takes the instant at which it executes. *)

From Stdlib Require Import ZArith Lia Sorted Ascii String.
From stdpp Require Import gmap strings list pretty.

Local Open Scope Z_scope.
#[local] Set Warnings "-register-all".

(** ** Lua numbers

    Redis runs scripts in Lua 5.1, whose numbers are IEEE 754 doubles. *)

Module Lua.

(** A double that holds an integer, an infinity, or no number. *)
Inductive number : Type :=
| Fin (z : Z)
| PosInf
| NegInf
| NaN.

(** The double nearest to the integer [z], a tie going to the even
    significand, and an infinity beyond the largest double. An integer of
    at most [2^53] in absolute value is a double itself; a larger one
    keeps its 53 leading bits, rounded. *)
Definition round (z : Z) : number :=
  let a := Z.abs z in
  if a <=? 2 ^ 53 then Fin z
  else
    let shift := Z.log2 a - 52 in
    let q := Z.shiftr a shift in
    let r := a - Z.shiftl q shift in
    let half := 2 ^ (shift - 1) in
    let q' := if (half <? r) || ((r =? half) && Z.odd q) then q + 1 else q in
    let m := Z.shiftl q' shift in
    if 2 ^ 1024 <=? m then (if 0 <? z then PosInf else NegInf)
    else Fin (Z.sgn z * m).

(** [tonumber(s)] for [s] the decimal writing of the integer [n]. *)
Definition tonumber (n : Z) : number := round n.

(** [a + b]. *)
Definition add (a b : number) : number :=
  match a, b with
  | Fin x, Fin y => round (x + y)
  | NaN, _ | _, NaN => NaN
  | PosInf, NegInf | NegInf, PosInf => NaN
  | PosInf, _ | _, PosInf => PosInf
  | NegInf, _ | _, NegInf => NegInf
  end.

(** [a > b]. *)
Definition gt (a b : number) : bool :=
  match a, b with
  | Fin x, Fin y => y <? x
  | PosInf, Fin _ | PosInf, NegInf | Fin _, NegInf => true
  | _, _ => false
  end.

End Lua.

(** The finite numbers from [b] on, and the positive infinity. *)
Definition at_least (b : Z) (x : Lua.number) : Prop :=
  match x with
  | Lua.Fin m => b <= m
  | Lua.PosInf => True
  | _ => False
  end.

(** ** The shared store (Redis) *)

Module Redis.

(** A counter key: its integer value and, when a timeout is set, the
    absolute instant (ms) at which it expires. *)
Record entry := Entry { value : Z; expire_at : option Z }.

Abbreviation store := (gmap string entry).

(** A key with a timeout is gone once the clock has passed it. *)
Definition live (now : Z) (e : entry) : bool :=
  match expire_at e with
  | None => true
  | Some t => now <=? t
  end.

Definition lookup (now : Z) (st : store) (key : string) : option entry :=
  match st !! key with
  | Some e => if live now e then Some e else None
  | None => None
  end.

(** [GET key], read as a number; [None] is Redis' nil reply. *)
Definition get (now : Z) (st : store) (key : string) : option Z :=
  value <$> lookup now st key.

(** [INCRBY key n]: a missing (or expired) key counts from 0 and is
    created without a timeout; an existing key keeps its timeout. *)
Definition incrby (now : Z) (st : store) (key : string) (n : Z) : store * Z :=
  match lookup now st key with
  | Some e => (<[key := Entry (value e + n) (expire_at e)]> st, value e + n)
  | None => (<[key := Entry n None]> st, n)
  end.

(** [INCR key]. *)
Definition incr (now : Z) (st : store) (key : string) : store * Z :=
  incrby now st key 1.

(** [EXPIRE key seconds]: sets the timeout of an existing key; a timeout
    that is not positive deletes the key at once. *)
Definition expire (now : Z) (st : store) (key : string) (seconds : Z) : store * Z :=
  match lookup now st key with
  | Some e =>
      if seconds <=? 0 then (delete key st, 1)
      else (<[key := Entry (value e) (Some (now + 1000 * seconds))]> st, 1)
  | None => (st, 0)
  end.

(** [TTL key]: -2 for a missing key, -1 for a key without timeout,
    otherwise the remaining time rounded to the nearest second. *)
Definition ttl (now : Z) (st : store) (key : string) : Z :=
  match lookup now st key with
  | None => -2
  | Some e =>
      match expire_at e with
      | None => -1
      | Some t => (t - now + 500) / 1000
      end
  end.

(** *** Commands called from a script *)

(** A counter is a 64-bit signed integer. *)
Definition int64 (n : Z) : bool := (- 2 ^ 63 <=? n) && (n <? 2 ^ 63).

(** Where the versions and platforms of the server differ. A Lua number
    given to a command as an argument is written out as text, and a
    number from [10^17] on (or one that is not finite) is written in a
    way that depends on the version: [large_argument] is the integer the
    command then reads, [None] when it refuses the text. A Lua number
    returned as the reply is cast to a 64-bit integer: [large_reply] is
    the outcome of the cast for a number outside that range. Nothing is
    assumed about either. *)
Record server := {
  large_argument : Lua.number -> option Z;
  large_reply : Lua.number -> Z
}.

Definition integer_argument (srv : server) (x : Lua.number) : option Z :=
  match x with
  | Lua.Fin z => if Z.abs z <? 10 ^ 17 then Some z else large_argument srv x
  | _ => large_argument srv x
  end.

Definition integer_reply (srv : server) (x : Lua.number) : Z :=
  match x with
  | Lua.Fin z => if int64 z then z else large_reply srv x
  | _ => large_reply srv x
  end.

(** [redis.call('INCRBY', key, x)]: [None] when the command raises an
    error (an argument that is not an integer, or a sum that leaves the
    64 bits); the script stops there and what it has written stays. *)
Definition call_incrby (srv : server) (now : Z) (st : store) (key : string)
    (x : Lua.number) : option (store * Z) :=
  match integer_argument srv x with
  | Some n =>
      let cur := match lookup now st key with Some e => value e | None => 0 end in
      if int64 (cur + n) then Some (incrby now st key n) else None
  | None => None
  end.

(** [redis.call('EXPIRE', key, x)]. *)
Definition call_expire (srv : server) (now : Z) (st : store) (key : string)
    (x : Lua.number) : option store :=
  match integer_argument srv x with
  | Some n => Some (expire now st key n).1
  | None => None
  end.

End Redis.

(** ** Python strings *)

Module Str.

Definition code (c : ascii) : N := N_of_ascii c.

(** [c.isspace()] for a character below 256. *)
Definition is_space (c : ascii) : bool :=
  let n := code c in
  ((9 <=? n) && (n <=? 13) || (28 <=? n) && (n <=? 32)
   || (n =? 133) || (n =? 160))%N.

(** [str.split()] without arguments: the maximal runs of characters that
    are not whitespace. [cur] is the field being read, if any. *)
Fixpoint split_go (cur : option string) (s : string) : list string :=
  match s with
  | EmptyString => match cur with Some w => [w] | None => [] end
  | String c s' =>
      if is_space c then
        match cur with
        | Some w => w :: split_go None s'
        | None => split_go None s'
        end
      else
        split_go (Some (match cur with Some w => w +:+ String c "" | None => String c "" end)) s'
  end.

Definition split (s : string) : list string := split_go None s.

Definition upper_char (c : ascii) : ascii :=
  let n := code c in
  if ((97 <=? n) && (n <=? 122))%N then ascii_of_N (n - 32) else c.

Definition lower_char (c : ascii) : ascii :=
  let n := code c in
  if ((65 <=? n) && (n <=? 90))%N then ascii_of_N (n + 32) else c.

Fixpoint map_chars (f : ascii -> ascii) (s : string) : string :=
  match s with
  | EmptyString => EmptyString
  | String c s' => String (f c) (map_chars f s')
  end.

(** [s.upper()] and [s.lower()] on ASCII letters (HTTP methods and
    header names are ASCII tokens). *)
Definition upper : string -> string := map_chars upper_char.
Definition lower : string -> string := map_chars lower_char.

Fixpoint mem (c : ascii) (chars : string) : bool :=
  match chars with
  | EmptyString => false
  | String d chars' => if Ascii.eqb c d then true else mem c chars'
  end.

(** [s.lstrip(chars)]: drop leading characters that occur in [chars]. *)
Fixpoint lstrip (chars s : string) : string :=
  match s with
  | EmptyString => EmptyString
  | String c s' => if mem c chars then lstrip chars s' else s
  end.

(** [s.rstrip(chars)]: drop trailing characters that occur in [chars]. *)
Fixpoint rstrip (chars s : string) : string :=
  match s with
  | EmptyString => EmptyString
  | String c s' =>
      match rstrip chars s' with
      | EmptyString => if mem c chars then EmptyString else String c EmptyString
      | r => String c r
      end
  end.

Fixpoint is_prefix (p s : string) : bool :=
  match p, s with
  | EmptyString, _ => true
  | String a p', String b s' => if Ascii.eqb a b then is_prefix p' s' else false
  | String _ _, EmptyString => false
  end.

(** [p in s] for strings. *)
Fixpoint contains (p s : string) : bool :=
  is_prefix p s ||
  match s with
  | EmptyString => false
  | String _ s' => contains p s'
  end.

(** [s.replace(old, new)] for a non-empty [old]: scanning from the left,
    every occurrence that does not overlap an earlier one is replaced.
    [skip] counts the characters of the current occurrence still to be
    passed over. *)
Fixpoint replace_go (old new : string) (skip : nat) (s : string) : string :=
  match s with
  | EmptyString => EmptyString
  | String c s' =>
      match skip with
      | S k => replace_go old new k s'
      | O =>
          if is_prefix old s
          then new +:+ replace_go old new (String.length old - 1) s'
          else String c (replace_go old new 0 s')
      end
  end.

(** For an empty [old], Python inserts [new] before every character and
    at the end. *)
Fixpoint intersperse (new s : string) : string :=
  match s with
  | EmptyString => new
  | String c s' => new +:+ String c (intersperse new s')
  end.

Definition replace (s old new : string) : string :=
  match old with
  | EmptyString => intersperse new s
  | _ => replace_go old new 0 s
  end.

Fixpoint chars (s : string) : list string :=
  match s with
  | EmptyString => []
  | String c s' => String c EmptyString :: chars s'
  end.

Fixpoint drop (n : nat) (s : string) : string :=
  match n, s with
  | S k, String _ s' => drop k s'
  | _, _ => s
  end.

Fixpoint take (n : nat) (s : string) : string :=
  match n, s with
  | S k, String c s' => String c (take k s')
  | _, _ => EmptyString
  end.

(** Two characters that differ at most by the case of an ASCII letter. *)
Definition eq_nocase (a b : ascii) : bool := Ascii.eqb (lower_char a) (lower_char b).

Fixpoint is_prefix_nocase (p s : string) : bool :=
  match p, s with
  | EmptyString, _ => true
  | String a p', String b s' => if eq_nocase a b then is_prefix_nocase p' s' else false
  | String _ _, EmptyString => false
  end.

(** As [replace_go], an occurrence of [old] being a stretch of the text
    that equals it up to the case of ASCII letters. *)
Fixpoint replace_nocase_go (old new : string) (skip : nat) (s : string) : string :=
  match s with
  | EmptyString => EmptyString
  | String c s' =>
      match skip with
      | S k => replace_nocase_go old new k s'
      | O =>
          if is_prefix_nocase old s
          then new +:+ replace_nocase_go old new (String.length old - 1) s'
          else String c (replace_nocase_go old new 0 s')
      end
  end.

Definition replace_nocase (s old new : string) : string :=
  replace_nocase_go old new 0 s.

End Str.

(** ** Dynamically typed values *)

(** What [yaml.safe_load] and [json.loads] produce, mappings keyed by
    strings. *)
Inductive value : Type :=
| VNone
| VBool (b : bool)
| VInt (n : Z)
| VStr (s : string)
| VList (l : list value)
| VDict (d : list (string * value)).

Inductive exn : Type :=
| HTTPException (status_code : Z) (detail : string)
| AttributeError
| TypeError
| ValueError
| OverflowError
| YAMLError
| OSError
| HTTPError
| ResponseError.

Inductive result (A : Type) : Type :=
| Ok (a : A)
| Raise (e : exn).
Arguments Ok {A} a.
Arguments Raise {A} e.

Definition rbind {A B} (r : result A) (k : A -> result B) : result B :=
  match r with
  | Ok a => k a
  | Raise e => Raise e
  end.

Declare Scope py_scope.
Delimit Scope py_scope with py.
Notation "x <- m ;; k" := (rbind m (fun x => k))
  (at level 100, m at next level, right associativity) : py_scope.

(** Truthiness, as [if v:] and [not v] test it. *)
Definition truthy (v : value) : bool :=
  match v with
  | VNone => false
  | VBool b => b
  | VInt n => negb (n =? 0)
  | VStr s => negb (String.eqb s "")
  | VList l => match l with [] => false | _ => true end
  | VDict d => match d with [] => false | _ => true end
  end.

Fixpoint assoc {A} (k : string) (d : list (string * A)) : option A :=
  match d with
  | [] => None
  | (k', v) :: d' => if String.eqb k k' then Some v else assoc k d'
  end.

(** [v.get(k, default)]: only mappings have a [get]. *)
Definition py_get (v : value) (k : string) (default : value) : result value :=
  match v with
  | VDict d => Ok (match assoc k d with Some x => x | None => default end)
  | _ => Raise AttributeError
  end.

Definition is_str (v : value) (s : string) : bool :=
  match v with
  | VStr s' => String.eqb s s'
  | _ => false
  end.

(** [s in v] for a string [s]: an element of a list, a substring of a
    string, a key of a mapping. *)
Definition py_in (s : string) (v : value) : result bool :=
  match v with
  | VList l => Ok (existsb (fun x => is_str x s) l)
  | VStr t => Ok (Str.contains s t)
  | VDict d => Ok (match assoc s d with Some _ => true | None => false end)
  | _ => Raise TypeError
  end.

(** A value on which the code calls a method of [str] ([rstrip],
    [split]): nothing else has such a method. *)
Definition as_str (v : value) : result string :=
  match v with
  | VStr s => Ok s
  | _ => Raise AttributeError
  end.

(** [for x in v]: the elements of a list, the characters of a string, the
    keys of a mapping; nothing else can be iterated. *)
Definition py_iter (v : value) : result (list value) :=
  match v with
  | VList l => Ok l
  | VStr s => Ok (VStr <$> Str.chars s)
  | VDict d => Ok ((fun kv => VStr kv.1) <$> d)
  | _ => Raise TypeError
  end.

(** [{k: v for k, v in items}]: one entry for each key, at the place
    where the key comes first, with the value that comes last. *)
Fixpoint dict_set (k v : string) (d : list (string * string)) : list (string * string) :=
  match d with
  | [] => [(k, v)]
  | (k', v') :: d' =>
      if String.eqb k k' then (k', v) :: d' else (k', v') :: dict_set k v d'
  end.

Definition dict_of (items : list (string * string)) : list (string * string) :=
  fold_left (fun d kv => dict_set kv.1 kv.2 d) items [].

(** ** gateway/store.py *)

(** [int(time.time())] for a clock given in milliseconds. *)
Definition unix_seconds (now_ms : Z) : Z := now_ms ÷ 1000.

Definition rate_key (tenant : string) (window : Z) : string :=
  "rl:" +:+ tenant +:+ ":" +:+ pretty window.

(** [rate_allow(redis, tenant, requests, per_seconds)], executed at the
    instant [now_ms]; returns the store and [(allowed, retry_after)]. *)
Definition rate_allow (now_ms : Z) (st : Redis.store) (tenant : string)
    (requests per_seconds : Z) : Redis.store * (bool * Z) :=
  let now := unix_seconds now_ms in
  let window := now / Z.max 1 per_seconds in
  let key := rate_key tenant window in
  let '(st, val) := Redis.incr now_ms st key in
  let st := if val =? 1 then (Redis.expire now_ms st key per_seconds).1 else st in
  if requests <? val then
    let ttl := Redis.ttl now_ms st key in
    let retry := if negb (ttl =? 0) && (0 <? ttl) then ttl else per_seconds in
    (st, (false, retry))
  else (st, (true, 0)).

(** What the process clock reports during one call of [quota_consume]:
    the instant, [time.strftime('%Y-%m')] (the month in local time), and
    the instant [end] that [_seconds_until_month_end] builds (the last
    second of the month in UTC). *)
Record clock := Clock { now_ms : Z; year_month : string; month_end_ms : Z }.

(** A reading a clock can give: [end] is the last second of the UTC month
    that [now] lies in, so it is less than a second behind [now] and at
    most 31 days ahead. *)
Definition real_clock (c : clock) : Prop :=
  - 1000 < month_end_ms c - now_ms c <= 31 * 86400 * 1000.

(** [int((end - now).total_seconds())]: truncation towards zero. *)
Definition _seconds_until_month_end (c : clock) : Z :=
  (month_end_ms c - now_ms c) ÷ 1000.

Definition quota_key (tenant month : string) : string :=
  "quota:" +:+ tenant +:+ ":" +:+ month.

(** The Lua script of [quota_consume], called with the decimal writings
    of [tokens], [cap] and [expire]; Redis runs it as one transaction.
    The reply is an integer, or [None] when a command of the script
    raises an error. *)
Definition quota_script (srv : Redis.server) (now : Z) (st : Redis.store)
    (key : string) (tokens cap expire : Z) : Redis.store * option Z :=
  let tokens := Lua.tonumber tokens in
  let cap := Lua.tonumber cap in
  let expire := Lua.tonumber expire in
  let curr := match Redis.get now st key with
              | None => Lua.Fin 0
              | Some c => Lua.tonumber c
              end in
  if Lua.gt (Lua.add curr tokens) cap then (st, Some (-1))
  else
    match Redis.call_incrby srv now st key tokens with
    | None => (st, None)
    | Some (st, v) =>
        let v := Lua.round v in
        match Redis.call_expire srv now st key expire with
        | None => (st, None)
        | Some st => (st, Some (Redis.integer_reply srv v))
        end
    end.

(** [quota_consume(redis, tenant, tokens, cap)]; an error of the script
    reaches the caller as [redis.exceptions.ResponseError]. *)
Definition quota_consume (srv : Redis.server) (c : clock) (st : Redis.store)
    (tenant : string) (tokens cap : Z) : Redis.store * result bool :=
  let key := quota_key tenant (year_month c) in
  let expire_seconds := _seconds_until_month_end c + 60 * 60 * 24 in
  match quota_script srv (now_ms c) st key tokens cap expire_seconds with
  | (st, Some res) => (st, Ok (negb (res =? -1)))
  | (st, None) => (st, Raise ResponseError)
  end.

(** *** Runs of the rate limiter and of the quota manager *)

(** Successive checks of one tenant under one configuration, at the
    instants [times]; the replies in order. *)
Fixpoint rate_run (times : list Z) (st : Redis.store) (tenant : string)
    (requests per_seconds : Z) : list (bool * Z) :=
  match times with
  | [] => []
  | t :: ts =>
      let '(st', r) := rate_allow t st tenant requests per_seconds in
      r :: rate_run ts st' tenant requests per_seconds
  end.

(** The remaining time to live, in seconds as [TTL] rounds it, at instant
    [t] of a window counter created at instant [t1] with timeout [W]. *)
Definition remaining_ttl (W t1 t : Z) : Z := (t1 + 1000 * W - t + 500) / 1000.

(** The retry delay the design prescribes: the remaining time to live, or
    the window length when that is not a positive number. *)
Definition retry_after_spec (W t1 t : Z) : Z :=
  if 0 <? remaining_ttl W t1 t then remaining_ttl W t1 t else W.

(** The instant [t] (ms, not before the epoch) lies in the window of index
    [k] of length [W] seconds. *)
Definition in_window (W k t : Z) : Prop := 0 <= t /\ unix_seconds t / W = k.

(** The reply of [rate_allow] to a check at instant [t] that finds the
    counter at [c] with its timeout at instant [e]. *)
Definition reply (N W c e t : Z) : bool * Z :=
  if N <? c + 1 then
    (false, let ttl := (e - t + 500) / 1000 in
            if negb (ttl =? 0) && (0 <? ttl) then ttl else W)
  else (true, 0).

(** The value of a counter as the Lua script reads it: 0 when absent. *)
Definition counter_value (now : Z) (st : Redis.store) (key : string) : Z :=
  match Redis.get now st key with None => 0 | Some c => c end.

(** One call of [quota_consume] as an observer of the counter sees it:
    the value the script reads, what the call returns, and the value a
    read made right after it finds. *)
Record quota_step := QuotaStep { before : Z; granted : result bool; after : Z }.

(** Successive calls for one tenant under one cap; each call comes with
    the clock reading it runs under and the tokens it asks for. *)
Fixpoint quota_run (srv : Redis.server) (calls : list (clock * Z))
    (st : Redis.store) (tenant : string) (cap : Z) : list quota_step :=
  match calls with
  | [] => []
  | (c, tokens) :: rest =>
      let key := quota_key tenant (year_month c) in
      let '(st', ok) := quota_consume srv c st tenant tokens cap in
      QuotaStep (counter_value (now_ms c) st key) ok
                (counter_value (now_ms c) st' key)
        :: quota_run srv rest st' tenant cap
  end.





(** ** The external collaborators

    What the gateway leaves to others: the [re], [json] and [yaml]
    libraries, [int] on strings, the token count of [estimate_tokens]
    (tiktoken when it is installed, floating-point arithmetic otherwise),
    the Redis server where its versions differ, and the answers of the
    providers and upstreams it reaches over the network. Every definition
    below takes them as a parameter; nothing is assumed about them. *)

Record upstream_response := UpstreamResponse {
  status_code : Z;
  resp_headers : list (string * string);
  text : string
}.

Inductive re_flag : Type := IGNORECASE.

(** What [re.sub(pattern, repl, _, flags=...)] is for a pattern and a
    replacement that are strings: it raises [re.error], or it raises
    another exception ([OverflowError], for a repeat count beyond the
    largest), in both cases before it looks at the text; or it takes each
    text that is a string to a string. *)
Inductive re_substitution : Type :=
| Substitutes (f : string -> string)
| ReError
| ReOverflow.

Record collaborators := {
  (** [re.sub(pattern, repl, _, flags=flags)], asked for the patterns
      that [unterminated_set] and [literal_pattern] below do not
      decide. *)
  py_re_sub : string -> string -> list re_flag -> re_substitution;
  (** [int(s)] for a string; [None] when it raises [ValueError]. *)
  int_of_str : string -> option Z;
  (** [json.loads] of a request body. *)
  json_loads : string -> option value;
  (** [yaml.safe_load], and [str(exc)] of the exception it raises on a
      text it does not load; [yaml.safe_dump]. *)
  yaml_safe_load : string -> option value;
  yaml_error : string -> string;
  yaml_safe_dump : value -> string;
  (** The Redis server, where its versions differ. *)
  redis_server : Redis.server;
  (** [estimate_tokens(text, model)]. *)
  estimate_tokens : string -> value -> Z;
  (** The text [call_provider(provider, model, prompt, tenant, policy)]
      obtains; [None] when the call fails. *)
  provider_reply : value -> value -> string -> string -> value -> option string;
  (** The answer of the upstream to [request(method, url, headers, body)];
      [None] when the call fails. *)
  upstream_reply : string -> string -> list (string * string) -> string ->
                   option upstream_response;
  (** The same for [request(method.upper(), url, headers, body)], as a
      function of [method]. *)
  upstream_reply_upper : string -> string -> list (string * string) -> string ->
                         option upstream_response
}.

(** ** gateway/policy.py *)

Module PolicyStore.

Local Open Scope py_scope.

(** [for_tenant(tenant)] on the raw document. *)
Definition for_tenant (raw : value) (tenant : string) : result value :=
  tenants <- py_get raw "tenants" (VDict []) ;;
  py_get tenants tenant (VDict []).

(** [route_for_tenant(tenant, route_name)]. *)
Definition route_for_tenant (raw : value) (tenant route_name : string) : result value :=
  tenant_cfg <- for_tenant raw tenant ;;
  routes <- py_get tenant_cfg "routes" (VDict []) ;;
  py_get (if truthy routes then routes else VDict []) route_name (VDict []).

(** [for tok in toks: mapping[tok] = t]. Only the entries under string
    keys are kept: the map is only ever read at a [str]. A list or a
    mapping cannot be a key; iterating a string yields its characters,
    iterating a mapping yields its keys. *)
Fixpoint add_tokens (t : string) (toks : list value) (mapping : gmap string string)
    : result (gmap string string) :=
  match toks with
  | [] => Ok mapping
  | VStr tok :: toks' => add_tokens t toks' (<[tok := t]> mapping)
  | VList _ :: _ | VDict _ :: _ => Raise TypeError
  | _ :: toks' => add_tokens t toks' mapping
  end.

Definition tokens_of (v : value) : result (list value) :=
  match v with
  | VList l => Ok l
  | VStr s => Ok (VStr <$> Str.chars s)
  | VDict d => Ok ((fun kv => VStr kv.1) <$> d)
  | _ => Raise TypeError
  end.

Fixpoint token_map_go (tenants : list (string * value)) (mapping : gmap string string)
    : result (gmap string string) :=
  match tenants with
  | [] => Ok mapping
  | (t, cfg) :: rest =>
      toks <- py_get cfg "tokens" (VList []) ;;
      toks <- tokens_of toks ;;
      mapping <- add_tokens t toks mapping ;;
      token_map_go rest mapping
  end.

(** [token_map()]. *)
Definition token_map (raw : value) : result (gmap string string) :=
  tenants <- py_get raw "tenants" (VDict []) ;;
  match tenants with
  | VDict d => token_map_go d ∅
  | _ => Raise AttributeError
  end.

End PolicyStore.

(** ** gateway/auth.py *)

(** [get_tenant_from_token(authorization_header, policies)]. *)
Definition get_tenant_from_token (authorization_header : string) (raw : value)
    : result (option string) :=
  if String.eqb authorization_header "" then Ok None
  else
    let parts := Str.split authorization_header in
    match parts with
    | [_; token] =>
        rbind (PolicyStore.token_map raw) (fun mapping => Ok (mapping !! token))
    | _ => Ok None
    end.

(** ** gateway/middleware.py *)

Definition marker : string := "[REDACTED]".

(** Characters with a meaning of their own in a regular expression. *)
Definition special_char (c : ascii) : bool := Str.mem c ".^$*+?{}[]()|\".

Fixpoint all_chars (p : ascii -> bool) (s : string) : bool :=
  match s with
  | EmptyString => true
  | String c s' => p c && all_chars p s'
  end.

(** A pattern made of ordinary characters followed by a ["["] after which
    no ["]"] comes: the character set it opens never ends, and [re]
    rejects the pattern. *)
Fixpoint unterminated_set (pattern : string) : bool :=
  match pattern with
  | EmptyString => false
  | String c rest =>
      if Ascii.eqb c "["%char then all_chars (fun d => negb (Ascii.eqb d "]"%char)) rest
      else negb (special_char c) && unterminated_set rest
  end.

(** A pattern that is not empty and is made of ASCII characters without
    a meaning of their own: as a regular expression it matches its own
    text, and with [IGNORECASE], in a text of characters below 256, that
    text up to the case of ASCII letters. *)
Definition ordinary_char (c : ascii) : bool :=
  (Str.code c <? 128)%N && negb (special_char c).

Definition literal_pattern (pattern : string) : bool :=
  negb (String.eqb pattern "") && all_chars ordinary_char pattern.

(** A replacement that [re] takes as it is written: no backslash. *)
Definition plain_template (repl : string) : bool := negb (Str.mem "092"%char repl).

(** [re.sub(pattern, repl, _, flags=re.IGNORECASE)]. *)
Definition re_sub (E : collaborators) (pattern repl : string) : re_substitution :=
  if unterminated_set pattern then ReError
  else if literal_pattern pattern && plain_template repl
  then Substitutes (fun text => Str.replace_nocase text pattern repl)
  else py_re_sub E pattern repl [IGNORECASE].

(** The body of the loop of [redact_text]: [re.sub] refuses a pattern
    that is not a string, and a text that is not one once it has compiled
    the pattern; the fallback calls the [replace] of the text. *)
Definition redact_step (E : collaborators) (out p : value) : result value :=
  match p with
  | VStr p =>
      match re_sub E p marker with
      | Substitutes f =>
          match out with
          | VStr s => Ok (VStr (f s))
          | _ => Raise TypeError
          end
      | ReError =>
          match out with
          | VStr s => Ok (VStr (Str.replace s p marker))
          | _ => Raise AttributeError
          end
      | ReOverflow => Raise OverflowError
      end
  | _ => Raise TypeError
  end.

Fixpoint redact_loop (E : collaborators) (out : value) (patterns : list value)
    : result value :=
  match patterns with
  | [] => Ok out
  | p :: rest => rbind (redact_step E out p) (fun out => redact_loop E out rest)
  end.

(** [redact_text(text, patterns)]. *)
Definition redact_text (E : collaborators) (text patterns : value) : result value :=
  if negb (truthy patterns) then Ok text
  else rbind (py_iter patterns) (redact_loop E text).

(** A list of patterns as the policy document holds it. *)
Definition pattern_list (P : list string) : value := VList (VStr <$> P).

(** [int(v)]. *)
Definition py_int (E : collaborators) (v : value) : result Z :=
  match v with
  | VInt n => Ok n
  | VBool b => Ok (if b then 1 else 0)
  | VStr s => match int_of_str E s with Some n => Ok n | None => Raise ValueError end
  | _ => Raise TypeError
  end.

(** An exception that is not an [HTTPException]: the client sees a 500. *)
Definition internal (e : exn) : Prop :=
  match e with
  | HTTPException _ _ => False
  | _ => True
  end.

Definition raises_internal {A} (r : result A) : Prop :=
  forall e, r = Raise e -> internal e.

(** ** The request handlers of main.py *)

(** What a handler does to the outside, in the order it does it. *)
Inductive event : Type :=
| RateChecked (tenant : string) (allowed : bool)
| QuotaChecked (tenant : string) (tokens : Z) (granted : result bool)
| ProviderCalled (provider model : value) (prompt tenant : string)
| UpstreamRequested (method url : string) (headers : list (string * string)) (body : string)
| UpstreamRequestedUpper (method url : string) (headers : list (string * string)) (body : string)
| Audited (tenant : string) (provider model : value) (prompt response : string).

Record world := World { redis : Redis.store; events : list event }.

(** Handlers run in a state and exception monad over [world]: what was
    done before an exception stays done. *)
Definition M (A : Type) : Type := world -> result A * world.

Definition ret {A} (a : A) : M A := fun w => (Ok a, w).
Definition raise {A} (e : exn) : M A := fun w => (Raise e, w).
Definition lift {A} (r : result A) : M A := fun w => (r, w).
Definition bind {A B} (m : M A) (k : A -> M B) : M B :=
  fun w =>
    match m w with
    | (Ok a, w') => k a w'
    | (Raise e, w') => (Raise e, w')
    end.
Definition emit (ev : event) : M unit :=
  fun w => (Ok tt, World (redis w) (events w ++ [ev])).

Declare Scope handler_scope.
Delimit Scope handler_scope with handler.
Notation "x <- m ;; k" := (bind m (fun x => k))
  (at level 100, m at next level, right associativity) : handler_scope.
Notation "m ;;; k" := (bind m (fun _ => k))
  (at level 100, right associativity) : handler_scope.

Record response := Response { status : Z; content : value }.

(** The status the client receives: FastAPI turns an [HTTPException] into
    a response with its status, and any other exception into a 500. *)
Definition status_of (r : result response) : Z :=
  match r with
  | Ok resp => status resp
  | Raise (HTTPException s _) => s
  | Raise _ => 500
  end.

Record request := Request {
  authorization : option string;
  method : string;
  query : string;
  headers : list (string * string);
  body : string
}.

(** The state of the application the admin endpoints act on: the active
    policy document and the content of the policy file. *)
Record app := App { policies : value; policy_file : string }.

(** What the file system does during one update: nothing wrong; [open]
    for writing fails (the file is untouched); the dump fails after
    [partial] was written over the file; the file is written but cannot be
    read back. [exc] is the text of the exception raised. *)
Inductive disk : Type :=
| DiskOk
| OpenFails (exc : string)
| DumpFails (partial exc : string)
| ReadFails.

Section Handlers.
Context (E : collaborators).
Local Open Scope handler_scope.

(** [RateLimiter.allow(tenant, cfg)]. *)
Definition RateLimiter_allow (c : clock) (tenant : string) (cfg : value)
    : M (bool * Z) :=
  reqs <- lift (rbind (py_get cfg "requests" (VInt 60)) (py_int E)) ;;
  per <- lift (rbind (py_get cfg "per_seconds" (VInt 60)) (py_int E)) ;;
  fun w =>
    let '(st, r) := rate_allow (now_ms c) (redis w) tenant reqs per in
    (Ok r, World st (events w ++ [RateChecked tenant r.1])).

(** [QuotaManager.consume(tenant, tokens, cfg)]. *)
Definition QuotaManager_consume (c : clock) (tenant : string) (tokens : Z)
    (cfg : value) : M bool :=
  cap <- lift (rbind (py_get cfg "monthly_tokens" (VInt 100000)) (py_int E)) ;;
  fun w =>
    let '(st, ok) := quota_consume (redis_server E) c (redis w) tenant tokens cap in
    (ok, World st (events w ++ [QuotaChecked tenant tokens ok])).

(** [call_provider(provider, model, prompt, tenant, policy)]. *)
Definition call_provider (provider model : value) (prompt tenant : string)
    (policy : value) : M string :=
  emit (ProviderCalled provider model prompt tenant) ;;;
  lift (match provider_reply E provider model prompt tenant policy with
        | Some text => Ok text
        | None => Raise HTTPError
        end).

Definition audit_log (tenant : string) (provider model : value)
    (prompt response : string) : M unit :=
  emit (Audited tenant provider model prompt response).

(** The first lines of every handler: resolve the tenant or refuse. *)
Definition authenticate (raw : value) (request : request) : M string :=
  auth <- match authorization request with
          | None => raise (HTTPException 401 "missing authorization")
          | Some a =>
              if String.eqb a "" then raise (HTTPException 401 "missing authorization")
              else ret a
          end ;;
  tenant <- lift (get_tenant_from_token auth raw) ;;
  match tenant with
  | None => raise (HTTPException 403 "invalid token")
  | Some t =>
      if String.eqb t "" then raise (HTTPException 403 "invalid token")
      else ret t
  end.

Definition rate_limited {A} (retry_after : Z) : M A :=
  raise (HTTPException 429
           ("rate limit exceeded, retry after " +:+ pretty retry_after +:+ "s")).

(** [redact_text(text, policy.get("pii_patterns", []))] for a text that
    is a string; what it returns is then a string. *)
Definition redacted (text : string) (policy : value) : M string :=
  patterns <- lift (py_get policy "pii_patterns" (VList [])) ;;
  lift (rbind (redact_text E (VStr text) patterns) as_str).

(** [POST /v1/generate]. *)
Definition generate (c : clock) (raw : value)
    (req_model req_provider req_prompt : string) (request : request)
    : M response :=
  tenant <- authenticate raw request ;;
  policy <- lift (PolicyStore.for_tenant raw tenant) ;;
  rl_cfg <- lift (py_get policy "rate_limit" (VDict [])) ;;
  verdict <- RateLimiter_allow c tenant rl_cfg ;;
  let '(allowed, retry_after) := verdict in
  if negb allowed then rate_limited retry_after
  else
    let estimated_tokens := estimate_tokens E req_prompt (VStr req_model) in
    quota_cfg <- lift (py_get policy "quota" (VDict [])) ;;
    ok <- QuotaManager_consume c tenant estimated_tokens quota_cfg ;;
    if negb ok then raise (HTTPException 402 "quota exceeded")
    else
      redacted_prompt <- redacted req_prompt policy ;;
      resp <- call_provider (VStr req_provider) (VStr req_model)
                redacted_prompt tenant policy ;;
      redacted_response <- redacted resp policy ;;
      audit_log tenant (VStr req_provider) (VStr req_model)
        redacted_prompt redacted_response ;;;
      ret (Response 200
             (VDict [("tenant", VStr tenant); ("provider", VStr req_provider);
                     ("model", VStr req_model);
                     ("response", VStr redacted_response)])).

Definition all_methods : value :=
  VList [VStr "GET"; VStr "POST"; VStr "PUT"; VStr "PATCH"; VStr "DELETE";
         VStr "OPTIONS"].

(** The target of a proxied request. *)
Definition upstream_url (upstream path qs : string) : string :=
  let url := Str.rstrip "/" upstream +:+ "/" +:+ Str.lstrip "/" path in
  if String.eqb qs "" then url else url +:+ "?" +:+ qs.

Definition forwarded (kv : string * string) : bool :=
  let k := Str.lower kv.1 in
  negb (String.eqb k "host" || String.eqb k "authorization"
        || String.eqb k "content-length").

(** The AI branch of [route_forward]. *)
Definition route_ai (c : clock) (tenant route_name : string)
    (policy route_cfg : value) (request : request) : M response :=
  body <- lift (match json_loads E (body request) with
                | Some v => Ok v
                | None => Raise ValueError
                end) ;;
  prompt <- lift (py_get body "prompt" VNone) ;;
  if negb (truthy prompt)
  then raise (HTTPException 400 "ai routes expect JSON body with 'prompt' field")
  else
    redact <- lift (py_get route_cfg "redact" VNone) ;;
    prompt <- (if truthy redact
               then patterns <- lift (py_get policy "pii_patterns" (VList [])) ;;
                    lift (redact_text E prompt patterns)
               else ret prompt) ;;
    model <- lift (py_get route_cfg "model" VNone) ;;
    prompt <- lift (as_str prompt) ;;
    let estimated_tokens := estimate_tokens E prompt model in
    tenant_quota <- lift (py_get policy "quota" (VDict [])) ;;
    quota_cfg <- lift (py_get route_cfg "quota" tenant_quota) ;;
    ok <- QuotaManager_consume c tenant estimated_tokens quota_cfg ;;
    if negb ok then raise (HTTPException 402 "quota exceeded")
    else
      route_provider <- lift (py_get route_cfg "provider" VNone) ;;
      provider <- (if truthy route_provider then ret route_provider
                   else lift (py_get policy "default_provider" (VStr "ollama"))) ;;
      resp <- call_provider provider model prompt tenant policy ;;
      redacted_resp <- redacted resp policy ;;
      audit_log tenant provider model prompt redacted_resp ;;;
      ret (Response 200
             (VDict [("tenant", VStr tenant); ("route", VStr route_name);
                     ("response", VStr redacted_resp)])).

(** The proxy branch of [route_forward]. *)
Definition route_proxy (tenant path : string) (route_cfg : value)
    (method : string) (request : request) : M response :=
  upstream <- lift (py_get route_cfg "upstream" VNone) ;;
  if negb (truthy upstream)
  then raise (HTTPException 500 "route misconfigured: missing upstream")
  else
    upstream <- lift (as_str upstream) ;;
    let url := upstream_url upstream path (query request) in
    let hdrs := dict_of (List.filter forwarded (headers request)) in
    emit (UpstreamRequested method url hdrs (body request)) ;;;
    r <- lift (match upstream_reply E method url hdrs (body request) with
               | Some r => Ok r
               | None => Raise HTTPError
               end) ;;
    audit_log tenant (VStr "proxy") (VStr url) (method +:+ " " +:+ url)
      (Str.take 1000 (text r)) ;;;
    ret (Response (status_code r)
           (VDict [("headers", VDict ((fun kv => (kv.1, VStr kv.2)) <$> resp_headers r));
                   ("body", VStr (text r))])).

(** The method allow check: whether [method] is in [allow_methods]. *)
Definition method_check (route_cfg : value) (method : string) : result bool :=
  rbind (py_get route_cfg "allow_methods" VNone) (fun configured =>
    let allow_methods := if truthy configured then configured else all_methods in
    py_in method allow_methods).

(** [route_forward] once the route is resolved: the method check, the
    rate limit, and the branch on [ai]. *)
Definition route_dispatch (c : clock) (tenant route_name path : string)
    (policy route_cfg : value) (request : request) : M response :=
  let method := Str.upper (method request) in
  listed <- lift (method_check route_cfg method) ;;
  if negb listed
  then raise (HTTPException 405 "method not allowed for this route")
  else
    tenant_rl <- lift (py_get policy "rate_limit" (VDict [])) ;;
    rl_cfg <- lift (py_get route_cfg "rate_limit" tenant_rl) ;;
    verdict <- RateLimiter_allow c tenant rl_cfg ;;
    let '(allowed, retry_after) := verdict in
    if negb allowed then rate_limited retry_after
    else
      ai <- lift (py_get route_cfg "ai" VNone) ;;
      if truthy ai then route_ai c tenant route_name policy route_cfg request
      else route_proxy tenant path route_cfg method request.

(** [/v1/route/{route_name}/{path:path}]. *)
Definition route_forward (c : clock) (raw : value) (route_name path : string)
    (request : request) : M response :=
  tenant <- authenticate raw request ;;
  policy <- lift (PolicyStore.for_tenant raw tenant) ;;
  route_cfg <- lift (PolicyStore.route_for_tenant raw tenant route_name) ;;
  if negb (truthy route_cfg) then raise (HTTPException 404 "route not found")
  else route_dispatch c tenant route_name path policy route_cfg request.

(** *** The admin endpoints *)

(** [PolicyStore.load(path)] on the content of the file. *)
Definition PolicyStore_load (file : string) : result value :=
  match yaml_safe_load E file with
  | Some raw => Ok (if truthy raw then raw else VDict [])
  | None => Raise YAMLError
  end.

(** [POST /admin/policies]. *)
Definition update_policies (d : disk) (body : string) (a : app)
    : result response * app :=
  if String.eqb body "" then (Raise (HTTPException 400 "empty body"), a)
  else
    match yaml_safe_load E body with
    | None =>
        (Raise (HTTPException 400
                  ("unable to parse body as YAML/JSON: " +:+ yaml_error E body)), a)
    | Some parsed =>
        match parsed with
        | VDict _ =>
            match d with
            | OpenFails exc =>
                (Raise (HTTPException 500 ("failed to write policy file: " +:+ exc)), a)
            | DumpFails partial exc =>
                (Raise (HTTPException 500 ("failed to write policy file: " +:+ exc)),
                 App (policies a) partial)
            | ReadFails =>
                (Raise OSError, App (policies a) (yaml_safe_dump E parsed))
            | DiskOk =>
                let a := App (policies a) (yaml_safe_dump E parsed) in
                match PolicyStore_load (policy_file a) with
                | Ok raw =>
                    (Ok (Response 200 (VDict [("status", VStr "ok")])),
                     App raw (policy_file a))
                | Raise e => (Raise e, a)
                end
            end
        | _ =>
            (Raise (HTTPException 400
                      "policy payload must be a mapping/object at top-level"), a)
        end
    end.

End Handlers.

(** Words of the design about URLs: a string of slashes, a string that
    does not end with a slash, a string that does not start with one. *)
Definition slashes (s : string) : Prop :=
  all_chars (fun c => Ascii.eqb c "/"%char) s = true.

Definition no_leading_slash (s : string) : Prop :=
  match s with
  | String c _ => c <> "/"%char
  | EmptyString => True
  end.

Fixpoint no_trailing_slash (s : string) : Prop :=
  match s with
  | EmptyString => True
  | String c EmptyString => c <> "/"%char
  | String _ s' => no_trailing_slash s'
  end.

(** The six verbs the route endpoint is registered for. *)
Definition supported_methods : list string :=
  ["GET"; "POST"; "PUT"; "PATCH"; "DELETE"; "OPTIONS"].

(** ** Words of the design about admission control *)

Definition is_granted (ok : result bool) : bool :=
  match ok with Ok true => true | _ => false end.

(** The order the design requires of what one request does: the quota is
    checked only once a rate-limit check has succeeded, and the provider
    is called only once a quota check has succeeded. *)
Fixpoint admission_ordered (rate_ok quota_ok : bool) (tr : list event) : bool :=
  match tr with
  | [] => true
  | RateChecked _ allowed :: tr' => admission_ordered (rate_ok || allowed) quota_ok tr'
  | QuotaChecked _ _ ok :: tr' =>
      rate_ok && admission_ordered rate_ok (quota_ok || is_granted ok) tr'
  | ProviderCalled _ _ _ _ :: tr' => quota_ok && admission_ordered rate_ok quota_ok tr'
  | _ :: tr' => admission_ordered rate_ok quota_ok tr'
  end.

Definition is_quota_check (ev : event) : bool :=
  match ev with QuotaChecked _ _ _ => true | _ => false end.

Definition is_provider_call (ev : event) : bool :=
  match ev with ProviderCalled _ _ _ _ => true | _ => false end.

(** No quota counter differs between two states of the store. *)
Definition quota_untouched (st st' : Redis.store) : Prop :=
  forall tenant month, st' !! quota_key tenant month = st !! quota_key tenant month.

(** What C7 asks of a handler [h] started in the world [w]. *)
Definition admission_controlled (h : M response) (w : world) : Prop :=
  exists tr,
    events (h w).2 = events w ++ tr /\
    admission_ordered false false tr = true /\
    (existsb is_quota_check tr = false ->
       quota_untouched (redis w) (redis (h w).2)) /\
    (forall t, In (RateChecked t false) tr ->
       status_of (h w).1 = 429 /\
       quota_untouched (redis w) (redis (h w).2) /\
       existsb is_quota_check tr = false /\
       existsb is_provider_call tr = false) /\
    (forall t n, In (QuotaChecked t n (Ok false)) tr ->
       status_of (h w).1 = 402 /\
       existsb is_provider_call tr = false).

(** ** Words of the design about redaction *)

(** [r] is [s] with every occurrence of [old] replaced by [new], the
    occurrences being taken from the left and not overlapping. *)
Inductive Replaced (old new : string) : string -> string -> Prop :=
| Replaced_nil : Replaced old new "" ""
| Replaced_hit s r :
    Replaced old new s r -> Replaced old new (old +:+ s) (new +:+ r)
| Replaced_keep c s r :
    Str.is_prefix old (String c s) = false ->
    Replaced old new s r -> Replaced old new (String c s) (String c r).

(** [occ] is [old] up to the case of ASCII letters. *)
Fixpoint same_nocase (occ old : string) : bool :=
  match occ, old with
  | EmptyString, EmptyString => true
  | String a occ', String b old' => Str.eq_nocase b a && same_nocase occ' old'
  | _, _ => false
  end.

(** The same, an occurrence being a stretch of the text that is [old] up
    to the case of ASCII letters. *)
Inductive Replaced_nocase (old new : string) : string -> string -> Prop :=
| Replaced_nocase_nil : Replaced_nocase old new "" ""
| Replaced_nocase_hit occ s r :
    same_nocase occ old = true ->
    Replaced_nocase old new s r -> Replaced_nocase old new (occ +:+ s) (new +:+ r)
| Replaced_nocase_keep c s r :
    Str.is_prefix_nocase old (String c s) = false ->
    Replaced_nocase old new s r -> Replaced_nocase old new (String c s) (String c r).

(** ** A concrete deployment

    One tenant with one token, a rate limit of two requests a minute, a
    quota of a hundred tokens and four routes; and stand-ins for the
    collaborators, used to run the handlers on concrete requests. *)
Module Sample.

Definition policies : value :=
  VDict [("tenants", VDict [("acme", VDict [
    ("tokens", VList [VStr "k1"]);
    ("rate_limit", VDict [("requests", VInt 2); ("per_seconds", VInt 60)]);
    ("quota", VDict [("monthly_tokens", VInt 100)]);
    ("routes", VDict [
       ("empty", VDict []);
       ("open", VDict [("upstream", VStr "http://x/a"); ("allow_methods", VList [])]);
       ("api", VDict [("upstream", VStr "http://x/a")]);
       ("chat", VDict [("ai", VBool true); ("model", VStr "m")])])])])].

(** The body is taken as the prompt, a token is a word, the provider
    echoes, the upstream answers 200, the Redis server refuses the numbers
    it is asked about. The stand-in for [re] accepts no pattern; the
    patterns used with it below are all decided by [unterminated_set] or
    by [literal_pattern], so that it is never asked. *)
Definition env : collaborators := {|
  py_re_sub := fun _ _ _ => ReError;
  int_of_str := fun _ => None;
  json_loads := fun s => Some (VDict [("prompt", VStr s)]);
  yaml_safe_load := fun s => if String.eqb s "{}" then Some (VDict []) else None;
  yaml_error := fun _ => "could not load";
  yaml_safe_dump := fun _ => "{}";
  redis_server := {| Redis.large_argument := fun _ => None;
                     Redis.large_reply := fun _ => 0 |};
  estimate_tokens := fun s _ => Z.of_nat (length (Str.split s));
  provider_reply := fun _ _ prompt _ _ => Some ("[echo] " +:+ prompt);
  upstream_reply := fun _ _ _ _ => Some (UpstreamResponse 200 [] "ok");
  upstream_reply_upper := fun _ _ _ _ => Some (UpstreamResponse 200 [] "ok")
|}.

Definition now : clock := Clock 1000 "2024-05" 5000.

Definition start : world := World ∅ [].

Definition get (auth : string) : request :=
  Request (Some auth) "GET" "" [] "".

Definition post (auth body : string) : request :=
  Request (Some auth) "POST" "" [] body.

End Sample.

(** ** Further runs and words used by the properties below *)

(** The store that successive checks leave. *)
Fixpoint rate_run_store (times : list Z) (st : Redis.store) (tenant : string)
    (requests per_seconds : Z) : Redis.store :=
  match times with
  | [] => st
  | t :: ts =>
      rate_run_store ts (rate_allow t st tenant requests per_seconds).1
        tenant requests per_seconds
  end.

(** The string holds no colon. *)
Definition colon_free (s : string) : Prop := Str.mem ":"%char s = false.

(** Successive checks of one tenant with one window length, each with the
    instant it is made at and the limit it is made under (the tenant's or
    that of the route requested). *)
Fixpoint rate_run_limits (checks : list (Z * Z)) (st : Redis.store)
    (tenant : string) (per_seconds : Z) : list (bool * Z) :=
  match checks with
  | [] => []
  | (t, requests) :: rest =>
      let '(st', r) := rate_allow t st tenant requests per_seconds in
      r :: rate_run_limits rest st' tenant per_seconds
  end.

(** Whether the tenant config [cfg] lists the token [tok] under
    ["tokens"]. *)
Definition lists_token (cfg : value) (tok : string) : bool :=
  match rbind (py_get cfg "tokens" (VList [])) PolicyStore.tokens_of with
  | Ok toks => existsb (fun x => is_str x tok) toks
  | Raise _ => false
  end.

(** The last tenant, in the order of the document, that lists [tok]. *)
Fixpoint last_owner (tok : string) (tenants : list (string * value)) : option string :=
  match tenants with
  | [] => None
  | (t, cfg) :: rest =>
      match last_owner tok rest with
      | Some t' => Some t'
      | None => if lists_token cfg tok then Some t else None
      end
  end.

(** A field of a header: not empty and without whitespace. *)
Definition field (s : string) : Prop :=
  s <> "" /\ all_chars (fun c => negb (Str.is_space c)) s = true.

(** ** gateway/providers.py *)

Module Providers.

Local Open Scope py_scope.

(** The three calls that leave the gateway, each with the arguments
    [call_provider] hands it; [None] when the call raises. *)
Record network := {
  call_openai : value -> value -> string -> option string;
  call_azure_openai : value -> value -> value -> value -> string -> option string;
  call_ollama : value -> string -> value -> option string
}.

Definition awaited (r : option string) : result string :=
  match r with
  | Some text => Ok text
  | None => Raise HTTPError
  end.

(** [call_provider(provider, model, prompt, tenant, policy)]. *)
Definition call_provider (N : network) (provider model : value)
    (prompt tenant : string) (policy : value) : result string :=
  creds <- py_get policy "provider_credentials" (VDict []) ;;
  if is_str provider "openai" then
    openai <- py_get creds "openai" (VDict []) ;;
    key <- py_get openai "api_key" VNone ;;
    if negb (truthy key) then Ok ("[mock] " +:+ prompt)
    else awaited (call_openai N key model prompt)
  else if is_str provider "azure" then
    azure <- py_get creds "azure_openai" (VDict []) ;;
    key <- py_get azure "api_key" VNone ;;
    endpoint <- py_get azure "endpoint" VNone ;;
    deployment <- py_get azure "deployment" VNone ;;
    if negb (truthy key && truthy endpoint && truthy deployment)
    then Ok ("[mock] " +:+ prompt)
    else awaited (call_azure_openai N key endpoint deployment model prompt)
  else if is_str provider "ollama" then
    ollama <- py_get creds "ollama" (VDict []) ;;
    host <- py_get ollama "host" (VStr "http://localhost:11434") ;;
    awaited (call_ollama N model prompt host)
  else Ok ("[echo] " +:+ prompt).

End Providers.

(** ** The other endpoints of main.py *)

Section Endpoints.
Context (E : collaborators).
Local Open Scope handler_scope.

(** [POST /v1/proxy]. The headers and the body are those of the JSON
    payload; an absent body is handed to the client as the empty one.
    The client is handed [req.method.upper()], whose characters need not
    lie below 256 when those of [req.method] do: the trace records the
    call by the method as the payload has it. *)
Definition proxy (c : clock) (raw : value) (req_method req_url : string)
    (req_headers : option (list (string * string))) (req_body : option string)
    (request : request) : M response :=
  tenant <- authenticate raw request ;;
  policy <- lift (PolicyStore.for_tenant raw tenant) ;;
  rl_cfg <- lift (py_get policy "rate_limit" (VDict [])) ;;
  verdict <- RateLimiter_allow E c tenant rl_cfg ;;
  let '(allowed, retry_after) := verdict in
  if negb allowed then rate_limited retry_after
  else
    let hdrs := default [] req_headers in
    let content := default "" req_body in
    emit (UpstreamRequestedUpper req_method req_url hdrs content) ;;;
    r <- lift (match upstream_reply_upper E req_method req_url hdrs content with
               | Some r => Ok r
               | None => Raise HTTPError
               end) ;;
    audit_log tenant (VStr "proxy") (VStr req_url) (req_method +:+ " " +:+ req_url)
      (Str.take 1000 (text r)) ;;;
    ret (Response 200
           (VDict [("status_code", VInt (status_code r));
                   ("headers", VDict ((fun kv => (kv.1, VStr kv.2)) <$> resp_headers r));
                   ("body", VStr (text r))])).

(** [POST /admin/reload_policies]. *)
Definition reload_policies (a : app) : result response * app :=
  match PolicyStore_load E (policy_file a) with
  | Ok raw => (Ok (Response 200 (VDict [("status", VStr "ok")])), App raw (policy_file a))
  | Raise e => (Raise e, a)
  end.

End Endpoints.

(** The headers [route_forward] keeps away from the upstream. *)
Definition stripped_headers : list string := ["host"; "authorization"; "content-length"].

Definition is_upstream_request (ev : event) : bool :=
  match ev with
  | UpstreamRequested _ _ _ _ | UpstreamRequestedUpper _ _ _ _ => true
  | _ => false
  end.

(** The statuses with which a handler turns a request away before any
    admission check. *)
Definition turned_away (s : Z) : Prop := s = 401 \/ s = 403 \/ s = 404 \/ s = 405.

(** A network on which every call fails. *)
Definition offline : Providers.network := {|
  Providers.call_openai := fun _ _ _ => None;
  Providers.call_azure_openai := fun _ _ _ _ _ => None;
  Providers.call_ollama := fun _ _ _ => None
|}.

(** * Properties *)

(** ** The shared store *)

(** Reading a key that is stored and has not expired. *)
Lemma redis_lookup_live now (st : Redis.store) key e :
  st !! key = Some e -> Redis.live now e = true -> Redis.lookup now st key = Some e.
Proof. intros H1 H2. unfold Redis.lookup. by rewrite H1, H2. Qed.

Lemma redis_lookup_insert_live now (st : Redis.store) key e :
  Redis.live now e = true -> Redis.lookup now (<[key := e]> st) key = Some e.
Proof. intros. apply redis_lookup_live; [apply lookup_insert_eq | done]. Qed.

Lemma redis_lookup_None now (st : Redis.store) key :
  st !! key = None -> Redis.lookup now st key = None.
Proof. intros H. unfold Redis.lookup. by rewrite H. Qed.

(** ** Strings *)

Lemma append_cons c s t : String c s +:+ t = String c (s +:+ t).
Proof. reflexivity. Qed.

Lemma append_nil s : "" +:+ s = s.
Proof. reflexivity. Qed.

Lemma append_nil_r s : s +:+ "" = s.
Proof. induction s as [|c s IH]; [done|]. by rewrite append_cons, IH. Qed.

Lemma append_assoc s t u : (s +:+ t) +:+ u = s +:+ (t +:+ u).
Proof.
  induction s as [|c s IH]; [done|]. by rewrite !append_cons, IH.
Qed.

Lemma in_window_bounds W k t :
  0 < W -> in_window W k t -> 1000 * W * k <= t < 1000 * W * (k + 1).
Proof.
  unfold in_window, unix_seconds. intros W_pos [Ht Hk].
  rewrite Z.quot_div_nonneg in Hk by lia.
  rewrite Z.div_div in Hk by lia.
  subst k. split.
  - apply Z.mul_div_le. lia.
  - rewrite Z.mul_add_distr_l, Z.mul_1_r, Z.add_comm.
    pose proof (Z.mod_pos_bound t (1000 * W)) as Hm.
    pose proof (Z.div_mod t (1000 * W)) as Hd. lia.
Qed.

Section RateWindow.
Variables (tenant : string) (N W k : Z).
Hypothesis W_pos : 0 < W.

Let key := rate_key tenant k.

Lemma rate_allow_key t : in_window W k t ->
  rate_key tenant (unix_seconds t / Z.max 1 W) = key.
Proof. intros [_ Hk]. rewrite Z.max_r by lia. by rewrite Hk. Qed.

Lemma rate_allow_fresh t st :
  in_window W k t -> Redis.lookup t st key = None ->
  rate_allow t st tenant N W =
    (<[key := Redis.Entry 1 (Some (t + 1000 * W))]> st, reply N W 0 (t + 1000 * W) t).
Proof.
  intros Hw Hl. unfold rate_allow. rewrite (rate_allow_key _ Hw).
  unfold Redis.incr, Redis.incrby. rewrite Hl.
  cbn [fst snd Z.eqb Pos.eqb].
  unfold Redis.expire. rewrite redis_lookup_insert_live by done.
  destruct (Z.leb_spec W 0) as [?|_]; [lia|]. cbn [fst Redis.value].
  rewrite insert_insert_eq. unfold reply, Redis.ttl.
  rewrite redis_lookup_insert_live by (cbn; lia). cbn [Redis.expire_at].
  change (0 + 1) with 1. by destruct (N <? 1).
Qed.

Lemma rate_allow_counting t st c e :
  in_window W k t -> st !! key = Some (Redis.Entry c (Some e)) ->
  1 <= c -> t <= e ->
  rate_allow t st tenant N W =
    (<[key := Redis.Entry (c + 1) (Some e)]> st, reply N W c e t).
Proof.
  intros Hw Hl Hc He. unfold rate_allow. rewrite (rate_allow_key _ Hw).
  unfold Redis.incr, Redis.incrby.
  rewrite (redis_lookup_live _ _ _ _ Hl) by (cbn; lia).
  cbn [Redis.value Redis.expire_at].
  destruct (Z.eqb_spec (c + 1) 1) as [?|_]; [lia|].
  unfold reply, Redis.ttl.
  rewrite redis_lookup_insert_live by (cbn; lia). cbn [Redis.expire_at].
  by destruct (N <? c + 1).
Qed.

Lemma rate_run_counting ts : forall st c e,
  st !! key = Some (Redis.Entry c (Some e)) -> 1 <= c ->
  Forall (fun t => in_window W k t /\ t <= e) ts ->
  forall (i : nat) t, ts !! i = Some t ->
    rate_run ts st tenant N W !! i = Some (reply N W (c + Z.of_nat i) e t).
Proof.
  induction ts as [|t' ts IH]; intros st c e Hl Hc Hall i t Hi; [done|].
  apply Forall_cons in Hall as [[Hw He] Hall]. simpl.
  rewrite (rate_allow_counting _ _ _ _ Hw Hl Hc He).
  destruct i as [|i]; simpl in *.
  - inversion Hi; subst. by rewrite Z.add_0_r.
  - rewrite (IH _ (c + 1) e) with (t := t); try done; try lia.
    + do 2 f_equal. lia.
    + apply lookup_insert_eq.
Qed.
End RateWindow.

(** Whatever the store holds, a denied check reports the time to live that
    [TTL] returns when it is positive, and [per_seconds] otherwise: for a
    missing key (-2), a key without timeout (-1), or less than half a
    second left (0). *)
Lemma rate_allow_denied_retry now st tenant N W st' r :
  rate_allow now st tenant N W = (st', (false, r)) ->
  let ttl := Redis.ttl now st' (rate_key tenant (unix_seconds now / Z.max 1 W)) in
  r = if 0 <? ttl then ttl else W.
Proof.
  unfold rate_allow. destruct (Redis.incr now st _) as [st1 val].
  destruct (N <? val); [|done]. intros [= <- <-]. cbv zeta.
  set (ttl := Redis.ttl _ _ _).
  destruct (Z.eqb_spec ttl 0), (Z.ltb_spec 0 ttl); simpl; try done; lia.
Qed.

Lemma retry_after_spec_bounds W t1 t :
  0 < W -> t1 <= t -> 0 < retry_after_spec W t1 t <= W.
Proof.
  intros HW Ht. unfold retry_after_spec.
  destruct (Z.ltb_spec 0 (remaining_ttl W t1 t)) as [Hp|Hn]; [|lia].
  split; [done|]. unfold remaining_ttl.
  assert ((t1 + 1000 * W - t + 500) `div` 1000 < W + 1); [|lia].
  apply Z.div_lt_upper_bound; lia.
Qed.

Lemma reply_spec N W i t1 t :
  reply N W i (t1 + 1000 * W) t =
    if N <=? i then (false, retry_after_spec W t1 t) else (true, 0).
Proof.
  unfold reply, retry_after_spec, remaining_ttl.
  destruct (Z.ltb_spec N (i + 1)), (Z.leb_spec N i); try lia; [|done].
  f_equal. set (ttl := (_ `div` 1000)).
  destruct (Z.eqb_spec ttl 0), (Z.ltb_spec 0 ttl); simpl; try done; lia.
Qed.

(** C2. With [requests = N] and [per_seconds = W > 0], take successive
    checks of one tenant that all fall in the window of index [k], the
    first of which finds no counter for that window. The first [N] of them
    are allowed with [retry_after = 0]; every later one is denied, and its
    [retry_after] is the remaining time to live of the window counter, or
    [W] when that is not positive, so that [0 < retry_after <= W]. *)
Theorem rate_window_admits_first_N tenant N W k st t1 ts :
  0 < W ->
  Redis.lookup t1 st (rate_key tenant k) = None ->
  StronglySorted Z.le (t1 :: ts) ->
  Forall (in_window W k) (t1 :: ts) ->
  forall (i : nat) t, (t1 :: ts) !! i = Some t ->
    exists r, rate_run (t1 :: ts) st tenant N W !! i = Some r /\
      (Z.of_nat i < N -> r = (true, 0)) /\
      (N <= Z.of_nat i ->
         r = (false, retry_after_spec W t1 t) /\ 0 < r.2 <= W).
Proof.
  intros HW Hfresh Hsorted Hwin i t Hi.
  apply StronglySorted_inv in Hsorted as [_ Hle].
  apply Forall_cons in Hwin as [Hw1 Hwin].
  assert (t1 <= t) as Ht.
  { destruct i as [|i]; simpl in Hi; [inversion Hi; lia|].
    rewrite Forall_forall in Hle. apply Hle.
    apply list_elem_of_lookup. eauto. }
  exists (if N <=? Z.of_nat i then (false, retry_after_spec W t1 t) else (true, 0)).
  split; [|split].
  - simpl. rewrite (rate_allow_fresh tenant N W k HW t1 st Hw1 Hfresh).
    destruct i as [|i]; simpl in *.
    + inversion Hi; subst. by rewrite reply_spec.
    + rewrite (rate_run_counting tenant N W k HW ts _ 1 (t1 + 1000 * W))
        with (t := t); try done; try lia.
      * rewrite reply_spec. by replace (1 + Z.of_nat i) with (Z.of_nat (S i)) by lia.
      * apply lookup_insert_eq.
      * rewrite Forall_forall in Hwin, Hle. apply Forall_forall. intros x Hx.
        split; [by apply Hwin|].
        pose proof (in_window_bounds W k x HW (Hwin x Hx)).
        pose proof (in_window_bounds W k t1 HW Hw1). lia.
  - intros Hlt. destruct (Z.leb_spec N (Z.of_nat i)); [lia|done].
  - intros Hge. destruct (Z.leb_spec N (Z.of_nat i)); [|lia].
    split; [done|]. simpl. by apply retry_after_spec_bounds.
Qed.

Lemma rate_window_admits_first_N_witness :
  exists r, rate_run [1000; 2000; 59999] ∅ "acme" 2 60 !! 2%nat = Some r /\
    (Z.of_nat 2 < 2 -> r = (true, 0)) /\
    (2 <= Z.of_nat 2 ->
       r = (false, retry_after_spec 60 1000 59999) /\ 0 < r.2 <= 60).
Proof.
  apply (rate_window_admits_first_N "acme" 2 60 0 ∅ 1000 [2000; 59999]).
  - lia.
  - reflexivity.
  - repeat constructor; lia.
  - repeat constructor; vm_compute; congruence.
  - reflexivity.
Defined.

(** ** Lua numbers *)

Lemma lua_round_exact z : Z.abs z <= 2 ^ 53 -> Lua.round z = Lua.Fin z.
Proof.
  intros H. unfold Lua.round. by destruct (Z.leb_spec (Z.abs z) (2 ^ 53)); [|lia].
Qed.

(** Beyond [2^53] the double keeps the sign and is at least as large. *)
Lemma lua_round_magnitude z :
  2 ^ 53 < Z.abs z ->
  exists m, 2 ^ 53 <= m /\
    Lua.round z = if 2 ^ 1024 <=? m then (if 0 <? z then Lua.PosInf else Lua.NegInf)
                  else Lua.Fin (Z.sgn z * m).
Proof.
  intros Hz. unfold Lua.round.
  assert (0 < 2 ^ 53) as Hpos by done.
  set (a := Z.abs z) in *.
  destruct (Z.leb_spec a (2 ^ 53)) as [?|_]; [lia|].
  set (n := Z.log2 a).
  assert (53 <= n) as Hn.
  { subst n. rewrite <- (Z.log2_pow2 53) by lia. apply Z.log2_le_mono. lia. }
  assert (2 ^ n <= a) as Hlow by (apply Z.log2_spec; lia).
  set (shift := n - 52). set (q := Z.shiftr a shift).
  match goal with
  | |- context [if ?b then q + 1 else q] => set (q' := if b then q + 1 else q)
  end.
  exists (Z.shiftl q' shift). split; [|done].
  assert (2 ^ 52 <= q) as Hq.
  { subst q. rewrite Z.shiftr_div_pow2 by lia.
    apply Z.div_le_lower_bound; [apply Z.pow_pos_nonneg; lia|].
    rewrite <- Z.pow_add_r by lia. by replace (shift + 52) with n by lia. }
  assert (q <= q') as Hq' by (subst q'; case_match; lia).
  rewrite Z.shiftl_mul_pow2 by lia.
  transitivity (2 ^ 52 * 2 ^ shift).
  - rewrite <- Z.pow_add_r by lia. apply Z.pow_le_mono_r; lia.
  - apply Z.mul_le_mono_nonneg_r; [apply Z.pow_nonneg|]; lia.
Qed.

Lemma lua_round_large z : 2 ^ 53 < z -> at_least (2 ^ 53) (Lua.round z).
Proof.
  intros Hz. assert (0 < 2 ^ 53) as Hpos by done.
  destruct (lua_round_magnitude z) as (m & Hm & ->); [lia|].
  destruct (2 ^ 1024 <=? m).
  - by destruct (Z.ltb_spec 0 z); [|lia].
  - cbn [at_least]. rewrite (Z.sgn_pos z) by lia. lia.
Qed.

(** Below [-2^53] the double is negative, or the negative infinity. *)
Lemma lua_round_below z :
  z < - 2 ^ 53 ->
  match Lua.round z with
  | Lua.Fin m => m < 0
  | Lua.NegInf => True
  | _ => False
  end.
Proof.
  intros Hz. assert (0 < 2 ^ 53) as Hpos by done.
  destruct (lua_round_magnitude z) as (m & Hm & ->); [lia|].
  destruct (2 ^ 1024 <=? m).
  - by destruct (Z.ltb_spec 0 z); [lia|].
  - rewrite (Z.sgn_neg z) by lia. lia.
Qed.

Lemma lua_round_at_least b z :
  - 2 ^ 53 <= b <= 2 ^ 53 -> b <= z -> at_least b (Lua.round z).
Proof.
  intros Hb Hz. destruct (Z.le_gt_cases z (2 ^ 53)) as [Hle|Hgt].
  - rewrite lua_round_exact by lia. exact Hz.
  - pose proof (lua_round_large z Hgt) as H.
    destruct (Lua.round z); cbn [at_least] in *; try done. lia.
Qed.

Lemma lua_add_at_least a b c x y :
  at_least a x -> at_least b y -> - 2 ^ 53 <= c <= 2 ^ 53 -> c <= a + b ->
  at_least c (Lua.add x y).
Proof.
  intros Hx Hy Hc Hab. destruct x as [m| | |], y as [m'| | |]; try done.
  cbn [at_least Lua.add] in *. apply lua_round_at_least; lia.
Qed.

Lemma lua_gt_at_least cap x : at_least (cap + 1) x -> Lua.gt x (Lua.Fin cap) = true.
Proof.
  destruct x as [m| | |]; cbn [at_least Lua.gt]; try done.
  intros H. apply Z.ltb_lt. lia.
Qed.

(** ** The monthly quota *)

Lemma expiry_after_month now mend :
  now < mend + 1000 ->
  0 < (mend - now) ÷ 1000 + 60 * 60 * 24 /\
  mend + 1000 <= now + 1000 * ((mend - now) ÷ 1000 + 60 * 60 * 24).
Proof.
  intros H.
  pose proof (Z.quot_rem' (mend - now) 1000) as Hq.
  assert (-1000 < Z.rem (mend - now) 1000 < 1000) as Hr.
  { destruct (Z.le_gt_cases 0 (mend - now)) as [Hp|Hn].
    - pose proof (Z.rem_bound_pos (mend - now) 1000 Hp). lia.
    - pose proof (Z.rem_bound_pos_neg (mend - now) 1000). lia. }
  generalize dependent ((mend - now) ÷ 1000).
  generalize dependent (Z.rem (mend - now) 1000). intros. lia.
Qed.

(** The timeout [quota_consume] asks for, under a clock as clocks are. *)
Lemma expire_seconds_bounds c :
  real_clock c ->
  0 < _seconds_until_month_end c + 60 * 60 * 24 <= 32 * 86400 /\
  month_end_ms c + 1000 <=
    now_ms c + 1000 * (_seconds_until_month_end c + 60 * 60 * 24).
Proof.
  unfold real_clock, _seconds_until_month_end. intros [Hlo Hhi].
  destruct (expiry_after_month (now_ms c) (month_end_ms c)) as [Hpos Hexp]; [lia|].
  split; [split; [done|]|done].
  assert ((month_end_ms c - now_ms c) ÷ 1000 <= 31 * 86400); [|lia].
  destruct (Z.le_gt_cases 0 (month_end_ms c - now_ms c)) as [Hp|Hn].
  - rewrite Z.quot_div_nonneg by lia. apply Z.div_le_upper_bound; lia.
  - pose proof (Z.quot_rem' (month_end_ms c - now_ms c) 1000).
    pose proof (Z.rem_bound_pos_neg (month_end_ms c - now_ms c) 1000). lia.
Qed.

Lemma counter_value_spec now (st : Redis.store) key :
  counter_value now st key =
    match Redis.lookup now st key with Some e => Redis.value e | None => 0 end.
Proof. unfold counter_value, Redis.get. by destruct (Redis.lookup now st key). Qed.

(** What the script reads is the counter, as a Lua number. *)
Lemma quota_script_reads now (st : Redis.store) key :
  match Redis.get now st key with
  | None => Lua.Fin 0
  | Some c => Lua.tonumber c
  end = Lua.round (counter_value now st key).
Proof. unfold counter_value. by destruct (Redis.get now st key). Qed.

(** [quota_consume] written out, where the doubles of the script do not
    show: the counter and the token count are not negative, the cap lies
    below [2^53], the clock is as clocks are. *)
Lemma quota_consume_exact srv c (st : Redis.store) tenant tokens cap :
  let key := quota_key tenant (year_month c) in
  let cur := counter_value (now_ms c) st key in
  let secs := _seconds_until_month_end c + 60 * 60 * 24 in
  real_clock c -> 0 <= cur -> 0 <= tokens -> cap < 2 ^ 53 ->
  quota_consume srv c st tenant tokens cap =
    if cap <? cur + tokens then (st, Ok false)
    else (<[key := Redis.Entry (cur + tokens) (Some (now_ms c + 1000 * secs))]> st,
          Ok true).
Proof.
  intros key cur secs Hc Hcur Htok Hcap.
  destruct (expire_seconds_bounds c Hc) as [[Hpos Hhi] _]. fold secs in Hpos, Hhi.
  assert (2 ^ 53 = 9007199254740992) as H53 by done.
  unfold quota_consume, quota_script. fold key secs.
  rewrite quota_script_reads. fold cur. unfold Lua.tonumber.
  destruct (Z.le_gt_cases (- 2 ^ 53) cap) as [Hlow|Hlow]; cycle 1.
  { assert (at_least 0 (Lua.add (Lua.round cur) (Lua.round tokens))) as Hsum
      by (apply (lua_add_at_least 0 0); [apply lua_round_at_least; lia..|lia|lia]).
    pose proof (lua_round_below cap Hlow) as Hc'.
    destruct (Z.ltb_spec cap (cur + tokens)) as [_|?]; [|lia].
    destruct (Lua.add (Lua.round cur) (Lua.round tokens)) as [x| | |],
      (Lua.round cap) as [y| | |]; cbn [at_least Lua.gt] in *; try done.
    by destruct (Z.ltb_spec y x); [|lia]. }
  rewrite (lua_round_exact cap) by lia.
  destruct (Z.ltb_spec cap (cur + tokens)) as [Hgt|Hle].
  - rewrite lua_gt_at_least; [done|].
    apply (lua_add_at_least (Z.min cur (2 ^ 53)) (Z.min tokens (2 ^ 53)));
      [apply lua_round_at_least; lia|apply lua_round_at_least; lia|lia|lia].
  - rewrite (lua_round_exact cur), (lua_round_exact tokens) by lia.
    cbn [Lua.add]. rewrite (lua_round_exact (cur + tokens)) by lia.
    cbn [Lua.gt]. destruct (Z.ltb_spec cap (cur + tokens)) as [?|_]; [lia|].
    unfold Redis.call_incrby, Redis.integer_argument.
    destruct (Z.ltb_spec (Z.abs tokens) (10 ^ 17)) as [_|?]; [|lia].
    subst cur. rewrite counter_value_spec in *.
    unfold Redis.incrby, Redis.call_expire, Redis.integer_argument, Redis.expire.
    rewrite (lua_round_exact secs) by lia.
    destruct (Z.ltb_spec (Z.abs secs) (10 ^ 17)) as [_|?]; [|lia].
    destruct (Redis.lookup (now_ms c) st key) as [e|] eqn:Hl.
    + assert (Redis.int64 (Redis.value e + tokens) = true) as ->
        by (unfold Redis.int64; apply andb_true_intro; split;
            [apply Z.leb_le|apply Z.ltb_lt]; lia).
      assert (Redis.live (now_ms c) e = true) as Hlive.
      { unfold Redis.lookup in Hl. destruct (st !! key); [|done].
        by destruct (Redis.live (now_ms c) e0) eqn:?; simplify_eq. }
      rewrite redis_lookup_insert_live by done.
      destruct (Z.leb_spec secs 0) as [?|_]; [lia|]. cbn [fst Redis.value].
      rewrite insert_insert_eq.
      rewrite (lua_round_exact (Redis.value e + tokens)) by lia.
      cbn [Redis.integer_reply].
      assert (Redis.int64 (Redis.value e + tokens) = true) as ->
        by (unfold Redis.int64; apply andb_true_intro; split;
            [apply Z.leb_le|apply Z.ltb_lt]; lia).
      by destruct (Z.eqb_spec (Redis.value e + tokens) (-1)); [lia|].
    + assert (Redis.int64 (0 + tokens) = true) as ->
        by (unfold Redis.int64; apply andb_true_intro; split;
            [apply Z.leb_le|apply Z.ltb_lt]; lia).
      rewrite redis_lookup_insert_live by done.
      destruct (Z.leb_spec secs 0) as [?|_]; [lia|]. cbn [fst Redis.value].
      rewrite insert_insert_eq. rewrite (lua_round_exact tokens) by lia.
      cbn [Redis.integer_reply].
      assert (Redis.int64 tokens = true) as ->
        by (unfold Redis.int64; apply andb_true_intro; split;
            [apply Z.leb_le|apply Z.ltb_lt]; lia).
      rewrite Z.add_0_l. by destruct (Z.eqb_spec tokens (-1)); [lia|].
Qed.





(** *** Calls that agree on the end of the month *)







(** The same whatever the server does with the numbers it is asked
    about: none of this run reaches [10^17]. *)
Example quota_cap_beyond_doubles srv :
  let c := Clock 1000 "2024-05" 5000 in
  granted <$> quota_run srv [(c, 2 ^ 53); (c, 1)] ∅ "acme" (2 ^ 53) =
    [Ok true; Ok true].
Proof. vm_compute. reflexivity. Qed.

(** The key is named after the month in local time and its timeout is
    counted from the end of the month in UTC. Where the two differ, the
    key of the new local month is first written with a timeout a day
    after the end of the old UTC month, and runs out then unless a call
    is granted in between: the counter restarts from 0 within the local
    month, and more than the cap is granted under one key. *)
Example quota_restarts_within_local_month :
  let first := Clock 0 "2024-06" 5400000 in
  let later := Clock 100000000 "2024-06" 2597400000 in
  real_clock first /\ real_clock later /\
  quota_run (redis_server Sample.env) [(first, 60); (later, 60)] ∅ "acme" 100 =
    [QuotaStep 0 (Ok true) 60; QuotaStep 0 (Ok true) 60].
Proof. vm_compute. repeat split; congruence. Qed.

(** Outside the token counts the gateway produces: a negative request that
    brings the counter to -1 is granted by the script, yet reported as a
    failure, because -1 is also the script's refusal reply. *)
Example quota_consume_negative_request srv :
  let c := Clock 1000 "2024-05" 5000 in
  (quota_consume srv c ∅ "acme" (-1) 100).2 = Ok false /\
  counter_value 1000 (quota_consume srv c ∅ "acme" (-1) 100).1
    (quota_key "acme" "2024-05") = -1.
Proof. split; vm_compute; reflexivity. Qed.

(** ** Admin policy updates *)

Lemma update_policies_outcome E d body a :
  (exists raw file,
     update_policies E d body a =
       (Ok (Response 200 (VDict [("status", VStr "ok")])), App raw file)) \/
  (exists e file, update_policies E d body a = (Raise e, App (policies a) file)).
Proof.
  unfold update_policies. destruct a as [pol file]. simpl.
  destruct (String.eqb body ""); [right; eauto|].
  destruct (yaml_safe_load E body) as [parsed|]; [|right; eauto].
  destruct parsed; try (right; eauto; fail).
  destruct d; try (right; eauto; fail).
  destruct (PolicyStore_load E _); [left|right]; eauto.
Qed.

(** C4. An admin policy update that fails (a body that does not parse:
    400; a top-level value that is not a mapping: 400; the policy file not
    written: 500; or any other failure) leaves the active policy document
    as it was, so that every [for_tenant] lookup returns what it returned
    before. *)
Theorem failed_update_keeps_policies E d body a :
  (status_of (update_policies E d body a).1 <> 200 ->
     policies (update_policies E d body a).2 = policies a /\
     forall tenant,
       PolicyStore.for_tenant (policies (update_policies E d body a).2) tenant =
       PolicyStore.for_tenant (policies a) tenant) /\
  (yaml_safe_load E body = None ->
     status_of (update_policies E d body a).1 = 400) /\
  (forall parsed, yaml_safe_load E body = Some parsed ->
     (forall m, parsed <> VDict m) ->
     status_of (update_policies E d body a).1 = 400) /\
  (forall m, body <> "" -> yaml_safe_load E body = Some (VDict m) ->
     (exists exc, d = OpenFails exc) \/ (exists partial exc, d = DumpFails partial exc) ->
     status_of (update_policies E d body a).1 = 500).
Proof.
  split; [|split; [|split]].
  - intros Hst.
    destruct (update_policies_outcome E d body a) as [(raw & file & H)|(e & file & H)];
      rewrite H in *; simpl in *; [done|]. by split.
  - intros Hload. unfold update_policies.
    destruct (String.eqb body ""); [done|]. by rewrite Hload.
  - intros parsed Hload Hnd. unfold update_policies.
    destruct (String.eqb body ""); [done|]. rewrite Hload.
    destruct parsed; try done. by destruct (Hnd d0).
  - intros m Hne Hload Hd. unfold update_policies.
    destruct (String.eqb_spec body ""); [done|]. rewrite Hload.
    by destruct Hd as [[exc ->]|(partial & exc & ->)].
Qed.

(** ** The target URL of a proxied request *)

Lemma mem_slash c : Str.mem c "/" = Ascii.eqb c "/"%char.
Proof. simpl. by destruct (Ascii.eqb c "/"). Qed.

Lemma lstrip_slash_spec s :
  exists pre, s = pre +:+ Str.lstrip "/" s /\ slashes pre /\
              no_leading_slash (Str.lstrip "/" s).
Proof.
  induction s as [|c s (pre & Hs & Hpre & Hno)].
  - by exists "".
  - cbn [Str.lstrip]. rewrite mem_slash.
    destruct (Ascii.eqb_spec c "/") as [->|Hc].
    + exists (String "/" pre). split; [rewrite append_cons; f_equal; exact Hs|].
      split; [exact Hpre|exact Hno].
    + by exists "".
Qed.

Lemma rstrip_slash_spec s :
  exists suf, s = Str.rstrip "/" s +:+ suf /\ slashes suf /\
              no_trailing_slash (Str.rstrip "/" s).
Proof.
  induction s as [|c s (suf & Hs & Hsuf & Hno)].
  - by exists "".
  - cbn [Str.rstrip]. rewrite mem_slash.
    destruct (Str.rstrip "/" s) as [|c' r] eqn:Hr.
    + destruct (Ascii.eqb_spec c "/") as [->|Hc].
      * exists (String "/" suf). rewrite append_nil in *. subst suf.
        split; [done|]. split; [exact Hsuf|done].
      * exists suf. rewrite append_cons. rewrite append_nil in *. by subst suf.
    + exists suf. split; [|split; [done|]].
      * rewrite append_cons. f_equal. exact Hs.
      * exact Hno.
Qed.

(** C9. The target URL is the upstream with its trailing slashes
    stripped, then ["/"], then the remaining path with its leading slashes
    stripped, then ["?"] and the query string exactly when the query string
    is not empty; upstream ["http://x/a"], path ["b/c"] and query ["q=1"]
    give ["http://x/a/b/c?q=1"]. A proxied request goes to that URL. *)
Theorem upstream_url_construction E upstream path :
  (exists u tail lead p,
     upstream = u +:+ tail /\ slashes tail /\ no_trailing_slash u /\
     path = lead +:+ p /\ slashes lead /\ no_leading_slash p /\
     upstream_url upstream path "" = u +:+ "/" +:+ p /\
     forall qs, qs <> "" ->
       upstream_url upstream path qs = u +:+ "/" +:+ p +:+ "?" +:+ qs) /\
  upstream_url "http://x/a" "b/c" "q=1" = "http://x/a/b/c?q=1" /\
  forall tenant d method rq w,
    assoc "upstream" d = Some (VStr upstream) -> upstream <> "" ->
    exists rest,
      events (route_proxy E tenant path (VDict d) method rq w).2 =
        events w ++
        UpstreamRequested method (upstream_url upstream path (query rq))
          (dict_of (List.filter forwarded (headers rq))) (body rq) :: rest.
Proof.
  split; [|split; [reflexivity|]].
  - destruct (rstrip_slash_spec upstream) as (tail & Hu & Htail & Hnt).
    destruct (lstrip_slash_spec path) as (lead & Hp & Hlead & Hnl).
    exists (Str.rstrip "/" upstream), tail, lead, (Str.lstrip "/" path).
    do 6 (split; [done|]). split; [reflexivity|].
    intros qs Hqs. unfold upstream_url.
    destruct (String.eqb_spec qs "") as [|_]; [done|].
    by rewrite !append_assoc.
  - intros tenant d method rq w Hup Hne.
    unfold route_proxy, bind, lift, emit, audit_log, raise, ret. simpl. rewrite Hup.
    simpl. destruct (String.eqb_spec upstream ""); [done|]. simpl.
    destruct (upstream_reply E _ _ _ _); simpl; eexists; try reflexivity.
    rewrite <- app_assoc. reflexivity.
Qed.

(** ** Which exceptions the helpers raise *)

Create HintDb internal.

Lemma raises_internal_Ok {A} (a : A) : raises_internal (Ok a).
Proof. by intros e. Qed.

Lemma raises_internal_Raise {A} e : internal e -> raises_internal (@Raise A e).
Proof. intros He e' [= <-]. exact He. Qed.

Lemma raises_internal_rbind {A B} (r : result A) (k : A -> result B) :
  raises_internal r -> (forall a, raises_internal (k a)) ->
  raises_internal (rbind r k).
Proof.
  intros Hr Hk e. destruct r as [a|e']; simpl.
  - apply Hk.
  - intros [= <-]. by apply Hr.
Qed.

Lemma raises_internal_py_get v k d : raises_internal (py_get v k d).
Proof. intros e. destruct v; simpl; by intros [= <-]. Qed.

Lemma raises_internal_py_int E v : raises_internal (py_int E v).
Proof.
  intros e. destruct v; simpl; try by intros [= <-].
  destruct (int_of_str E s); by intros [= <-].
Qed.

Lemma raises_internal_py_in s v : raises_internal (py_in s v).
Proof. intros e. destruct v; simpl; by intros [= <-]. Qed.

Lemma raises_internal_as_str v : raises_internal (as_str v).
Proof. intros e. destruct v; simpl; by intros [= <-]. Qed.

Lemma raises_internal_py_iter v : raises_internal (py_iter v).
Proof. intros e. destruct v; simpl; by intros [= <-]. Qed.

Lemma raises_internal_redact_step E out p : raises_internal (redact_step E out p).
Proof.
  intros e. unfold redact_step. destruct p; try by intros [= <-].
  destruct (re_sub E s marker); destruct out; by intros [= <-].
Qed.

Lemma raises_internal_redact_loop E ps : forall out,
  raises_internal (redact_loop E out ps).
Proof.
  induction ps as [|p ps IH]; intros out; [by intros e|]. cbn [redact_loop].
  apply raises_internal_rbind; [apply raises_internal_redact_step|done].
Qed.

Lemma raises_internal_redact_text E text patterns :
  raises_internal (redact_text E text patterns).
Proof.
  unfold redact_text. destruct (negb (truthy patterns)); [by intros e|].
  apply raises_internal_rbind; [apply raises_internal_py_iter|].
  intros ps. apply raises_internal_redact_loop.
Qed.

Lemma raises_internal_quota_consume srv c st tenant tokens cap :
  raises_internal (quota_consume srv c st tenant tokens cap).2.
Proof.
  intros e. unfold quota_consume.
  destruct (quota_script _ _ _ _ _ _ _) as [st' [res|]]; by intros [= <-].
Qed.

#[export] Hint Resolve raises_internal_Ok raises_internal_rbind
  raises_internal_py_get raises_internal_py_int raises_internal_py_in
  raises_internal_as_str raises_internal_py_iter raises_internal_redact_text
  : internal.

Lemma raises_internal_method_check cfg m : raises_internal (method_check cfg m).
Proof. unfold method_check. auto with internal. Qed.

Lemma raises_internal_for_tenant raw t : raises_internal (PolicyStore.for_tenant raw t).
Proof. unfold PolicyStore.for_tenant. auto with internal. Qed.

Lemma raises_internal_route_for_tenant raw t r :
  raises_internal (PolicyStore.route_for_tenant raw t r).
Proof.
  unfold PolicyStore.route_for_tenant.
  auto 6 using raises_internal_for_tenant with internal.
Qed.

Lemma raises_internal_add_tokens t toks : forall m,
  raises_internal (PolicyStore.add_tokens t toks m).
Proof.
  induction toks as [|x toks IH]; intros m; [by intros e|].
  destruct x; simpl; auto; by intros e [= <-].
Qed.

Lemma raises_internal_tokens_of v : raises_internal (PolicyStore.tokens_of v).
Proof. intros e. destruct v; simpl; by intros [= <-]. Qed.

Lemma raises_internal_token_map_go d : forall m,
  raises_internal (PolicyStore.token_map_go d m).
Proof.
  induction d as [|[t cfg] d IH]; intros m; [by intros e|]. simpl.
  auto 8 using raises_internal_add_tokens, raises_internal_tokens_of with internal.
Qed.

Lemma raises_internal_token_map raw : raises_internal (PolicyStore.token_map raw).
Proof.
  unfold PolicyStore.token_map. apply raises_internal_rbind; [auto with internal|].
  intros [] ; try (by intros e [= <-]). apply raises_internal_token_map_go.
Qed.

Lemma raises_internal_get_tenant a raw : raises_internal (get_tenant_from_token a raw).
Proof.
  unfold get_tenant_from_token. destruct (String.eqb a ""); [by intros e|].
  destruct (Str.split a) as [|? [|? [|]]]; try by intros e.
  apply raises_internal_rbind; [apply raises_internal_token_map|by intros m e].
Qed.

#[export] Hint Resolve raises_internal_method_check raises_internal_for_tenant
  raises_internal_route_for_tenant raises_internal_token_map
  raises_internal_get_tenant : internal.

(** ** Symbolic execution of handlers *)

Ltac unfold_handlers :=
  unfold route_forward, route_dispatch, route_ai, route_proxy, generate,
    authenticate, RateLimiter_allow, QuotaManager_consume, call_provider,
    audit_log, redacted, rate_limited, bind, lift, raise, ret, emit in *.

(** An exception a helper raised is not an [HTTPException]. *)
Ltac internal_raise :=
  match goal with
  | H : ?r = Raise ?e |- _ =>
      let Hi := fresh in
      let Hr := fresh in
      assert (internal e) as Hi
        by (assert (raises_internal r) as Hr by auto 8 with internal;
            exact (Hr e H));
      clear H
  | H : quota_consume ?srv ?c ?st ?t ?n ?cap = (_, Raise ?e) |- _ =>
      let Hi := fresh in
      assert (internal e) as Hi
        by (apply (raises_internal_quota_consume srv c st t n cap e); by rewrite H);
      clear H
  end.

Ltac run_handler := unfold_handlers; repeat (case_match; simpl in *; simplify_eq).

Lemma dispatch_not_405 E c tenant route_name path policy route_cfg rq w detail :
  method_check route_cfg (Str.upper (method rq)) = Ok true ->
  (route_dispatch E c tenant route_name path policy route_cfg rq w).1
    <> Raise (HTTPException 405 detail).
Proof.
  intros Hm. unfold route_dispatch, bind, lift. rewrite Hm. simpl.
  run_handler. all: try done.
  all: intros [= ->]; repeat internal_raise; done.
Qed.

(** ** The method check *)

Lemma bind_ext {A B} (m : M A) (k k' : A -> M B) w :
  (forall a w', k a w' = k' a w') -> bind m k w = bind m k' w.
Proof. intros H. unfold bind. destruct (m w) as [[a|e] w']; [apply H|done]. Qed.

Lemma py_get_agree d d' k x :
  assoc k d = assoc k d' -> py_get (VDict d) k x = py_get (VDict d') k x.
Proof. intros H. simpl. by rewrite H. Qed.

(** C10. A route whose config sets [allow_methods] to an empty list is
    handled exactly as a route that does not set it: each of the six
    supported verbs passes the method check, the request is dispatched as
    it would be with [allow_methods] unset, and no request with one of the
    six verbs is answered "405 method not allowed". *)
Theorem empty_allow_methods_is_unset E c tenant route_name path policy
    (d d' : list (string * value)) rq w :
  assoc "allow_methods" d = Some (VList []) ->
  assoc "allow_methods" d' = None ->
  (forall k, k <> "allow_methods" -> assoc k d = assoc k d') ->
  (forall m, In m supported_methods ->
     method_check (VDict d) m = Ok true /\ method_check (VDict d') m = Ok true) /\
  route_dispatch E c tenant route_name path policy (VDict d) rq w =
    route_dispatch E c tenant route_name path policy (VDict d') rq w /\
  (In (Str.upper (method rq)) supported_methods ->
   forall detail,
     (route_dispatch E c tenant route_name path policy (VDict d) rq w).1
       <> Raise (HTTPException 405 detail)).
Proof.
  intros Hd Hd' Hsame.
  assert (forall m, In m supported_methods ->
            method_check (VDict d) m = Ok true /\
            method_check (VDict d') m = Ok true) as Hcheck.
  { intros m Hm. unfold method_check. simpl. rewrite Hd, Hd'. simpl.
    repeat (destruct Hm as [<-|Hm]; [done|]). done. }
  split; [exact Hcheck|]. split.
  - assert (method_check (VDict d) (Str.upper (method rq)) =
            method_check (VDict d') (Str.upper (method rq))) as Hm.
    { unfold method_check. simpl. by rewrite Hd, Hd'. }
    unfold route_dispatch, route_ai, route_proxy. rewrite Hm.
    repeat first
      [ rewrite (py_get_agree d d') by (apply Hsame; discriminate)
      | apply bind_ext; intros ? ?
      | match goal with
        | |- (if ?b then _ else _) _ = _ => destruct b
        | |- (let '(_, _) := ?v in _) _ = _ => destruct v
        end
      | reflexivity ].
  - intros Hin detail. apply dispatch_not_405. by apply Hcheck.
Qed.

(** ** Authentication *)

Lemma split_go_field w s :
  all_chars (fun c => negb (Str.is_space c)) s = true ->
  Str.split_go (Some w) s = [w +:+ s].
Proof.
  revert w. induction s as [|c s IH]; intros w Hs.
  - simpl. by rewrite append_nil_r.
  - simpl in *. apply andb_prop in Hs as [Hc Hs].
    destruct (Str.is_space c); [done|].
    rewrite IH by done. by rewrite append_assoc.
Qed.

Lemma split_go_start s :
  s <> "" -> all_chars (fun c => negb (Str.is_space c)) s = true ->
  Str.split_go None s = [s].
Proof.
  destruct s as [|c s]; [done|]. intros _ Hs. cbn [Str.split_go all_chars] in *.
  apply andb_prop in Hs as [Hc Hs]. destruct (Str.is_space c); [done|].
  by rewrite split_go_field.
Qed.

Lemma split_go_field_space w f rest :
  all_chars (fun c => negb (Str.is_space c)) f = true ->
  Str.split_go (Some w) (f +:+ String " " rest) =
    (w +:+ f) :: Str.split_go None rest.
Proof.
  revert w. induction f as [|c f IH]; intros w Hf.
  - rewrite append_nil, append_nil_r. reflexivity.
  - cbn [all_chars] in Hf. apply andb_prop in Hf as [Hc Hf].
    rewrite append_cons. cbn [Str.split_go]. destruct (Str.is_space c); [done|].
    rewrite IH by done. by rewrite append_assoc.
Qed.

Lemma split_two f token :
  f <> "" -> all_chars (fun c => negb (Str.is_space c)) f = true ->
  token <> "" -> all_chars (fun c => negb (Str.is_space c)) token = true ->
  Str.split (f +:+ " " +:+ token) = [f; token].
Proof.
  intros Hf Hfs Ht Hts. unfold Str.split.
  destruct f as [|c f]; [done|]. cbn [all_chars] in Hfs.
  apply andb_prop in Hfs as [Hc Hfs].
  rewrite append_cons. cbn [Str.split_go]. destruct (Str.is_space c); [done|].
  change (" " +:+ token) with (String " " token).
  rewrite split_go_field_space by done. by rewrite split_go_start.
Qed.

Lemma split_bearer token :
  token <> "" -> all_chars (fun c => negb (Str.is_space c)) token = true ->
  Str.split ("Bearer " +:+ token) = ["Bearer"; token].
Proof.
  intros Hne Hs. change ("Bearer " +:+ token) with ("Bearer" +:+ " " +:+ token).
  by apply split_two.
Qed.

Lemma authenticate_world raw rq w : (authenticate raw rq w).2 = w.
Proof.
  unfold authenticate, bind, lift, raise, ret.
  destruct (authorization rq) as [a|]; [|done].
  destruct (String.eqb a ""); [done|].
  destruct (get_tenant_from_token a raw) as [[t|]|]; try done.
  by destruct (String.eqb t "").
Qed.

(** C3, as the code has it. A missing or empty Authorization header
    yields Unauthenticated (401). A non-empty header that does not consist
    of exactly two whitespace-separated fields yields Forbidden (403), and
    so does a header ["Bearer <token>"] whose token the policy document
    maps to no tenant; a token mapped to a tenant resolves to it. *)
Theorem authentication_statuses E c raw route_name path rq w :
  (authorization rq = None \/ authorization rq = Some "" ->
     route_forward E c raw route_name path rq w =
       (Raise (HTTPException 401 "missing authorization"), w)) /\
  (forall a, authorization rq = Some a -> a <> "" ->
     length (Str.split a) <> 2%nat ->
     route_forward E c raw route_name path rq w =
       (Raise (HTTPException 403 "invalid token"), w)) /\
  (forall token mapping,
     authorization rq = Some ("Bearer " +:+ token) ->
     token <> "" -> all_chars (fun c => negb (Str.is_space c)) token = true ->
     PolicyStore.token_map raw = Ok mapping ->
     (mapping !! token = None ->
        route_forward E c raw route_name path rq w =
          (Raise (HTTPException 403 "invalid token"), w)) /\
     (forall tenant, mapping !! token = Some tenant -> tenant <> "" ->
        authenticate raw rq w = (Ok tenant, w))).
Proof.
  split; [|split].
  - intros [H|H]; unfold route_forward, authenticate, bind, raise; by rewrite H.
  - intros a Ha Hne Hlen.
    unfold route_forward, authenticate, bind, raise, ret, lift. rewrite Ha.
    destruct (String.eqb_spec a ""); [done|].
    unfold get_tenant_from_token. destruct (String.eqb_spec a ""); [done|].
    by destruct (Str.split a) as [|? [|? [|]]].
  - intros token mapping Ha Hne Hs Hmap.
    assert (get_tenant_from_token ("Bearer " +:+ token) raw = Ok (mapping !! token)) as Hget.
    { unfold get_tenant_from_token. rewrite append_cons.
      change (String.eqb (String "B" _) "") with false. cbv iota.
      rewrite <- append_cons. rewrite split_bearer by done. by rewrite Hmap. }
    split.
    + intros Hnone.
      unfold route_forward, authenticate, bind, raise, ret, lift. rewrite Ha.
      rewrite append_cons. change (String.eqb (String "B" _) "") with false.
      cbv iota. rewrite <- append_cons. by rewrite Hget, Hnone.
    + intros tenant Hsome Ht.
      unfold authenticate, bind, raise, ret, lift. rewrite Ha.
      rewrite append_cons. change (String.eqb (String "B" _) "") with false.
      cbv iota. rewrite <- append_cons. rewrite Hget, Hsome.
      by destruct (String.eqb_spec tenant "").
Qed.

(** C3, as stated, fails: the header ["Bearer"] is not of the form
    ["Bearer <token>"], and the client is answered 403, not 401. *)
Lemma bearer_alone_is_forbidden :
  route_forward Sample.env Sample.now Sample.policies "api" ""
    (Sample.get "Bearer") Sample.start =
  (Raise (HTTPException 403 "invalid token"), Sample.start).
Proof. vm_compute. reflexivity. Qed.

(** The first field of the header is not inspected. *)
Example scheme_is_not_checked :
  authenticate Sample.policies (Sample.get "Basic k1") Sample.start =
  (Ok "acme", Sample.start).
Proof. vm_compute. reflexivity. Qed.

Lemma authentication_statuses_witness :
  route_forward Sample.env Sample.now Sample.policies "api" ""
    (Sample.get "Bearer k1 k2") Sample.start =
  (Raise (HTTPException 403 "invalid token"), Sample.start).
Proof.
  destruct (authentication_statuses Sample.env Sample.now Sample.policies "api" ""
              (Sample.get "Bearer k1 k2") Sample.start) as (_ & Hfields & _).
  apply (Hfields "Bearer k1 k2").
  - reflexivity.
  - discriminate.
  - vm_compute. discriminate.
Defined.

(** ** Route resolution *)

(** C6, as the code has it. A route name that the tenant's mapping does
    not contain and a route whose config is present but empty are both
    answered NotFound (404); a route whose config is not empty goes on to
    the method check. *)
Theorem empty_route_is_not_found E c raw route_name path rq w tenant tcfg routes :
  authenticate raw rq w = (Ok tenant, w) ->
  PolicyStore.for_tenant raw tenant = Ok (VDict tcfg) ->
  assoc "routes" tcfg = Some (VDict routes) ->
  (assoc route_name routes = None \/ assoc route_name routes = Some (VDict []) ->
     route_forward E c raw route_name path rq w =
       (Raise (HTTPException 404 "route not found"), w)) /\
  (forall cfg, assoc route_name routes = Some cfg -> truthy cfg = true ->
     route_forward E c raw route_name path rq w =
       route_dispatch E c tenant route_name path (VDict tcfg) cfg rq w).
Proof.
  intros Hauth Hpol Hroutes.
  assert (forall cfg,
            (match assoc route_name routes with Some x => x | None => VDict [] end) = cfg ->
            PolicyStore.route_for_tenant raw tenant route_name = Ok cfg) as Hroute.
  { intros cfg <-. unfold PolicyStore.route_for_tenant. rewrite Hpol. simpl.
    rewrite Hroutes. simpl. by destruct routes. }
  split.
  - intros Hcfg. unfold route_forward, bind, lift, raise. rewrite Hauth, Hpol.
    rewrite (Hroute (VDict [])); [done|]. by destruct Hcfg as [->| ->].
  - intros cfg Hcfg Ht. unfold route_forward, bind, lift, raise.
    rewrite Hauth, Hpol. rewrite (Hroute cfg) by (by rewrite Hcfg). by rewrite Ht.
Qed.

(** C6, as stated, fails: the route ["empty"] is present in the tenant's
    mapping with an empty config, and a request to it is answered 404. *)
Lemma empty_route_returns_404 :
  (exists routes,
     rbind (PolicyStore.for_tenant Sample.policies "acme")
       (fun cfg => py_get cfg "routes" VNone) = Ok (VDict routes) /\
     assoc "empty" routes = Some (VDict [])) /\
  status_of (route_forward Sample.env Sample.now Sample.policies "empty" ""
               (Sample.get "Bearer k1") Sample.start).1 = 404.
Proof.
  split; [|vm_compute; reflexivity].
  eexists. split; [vm_compute; reflexivity|]. reflexivity.
Qed.

Lemma empty_route_is_not_found_witness :
  route_forward Sample.env Sample.now Sample.policies "nowhere" ""
    (Sample.get "Bearer k1") Sample.start =
  (Raise (HTTPException 404 "route not found"), Sample.start).
Proof.
  eapply (empty_route_is_not_found Sample.env Sample.now Sample.policies
            "nowhere" "" (Sample.get "Bearer k1") Sample.start "acme").
  - vm_compute. reflexivity.
  - vm_compute. reflexivity.
  - reflexivity.
  - left. reflexivity.
Defined.

(** ** Redaction *)

Lemma is_prefix_drop p s :
  Str.is_prefix p s = true -> s = p +:+ Str.drop (String.length p) s.
Proof.
  revert s. induction p as [|a p IH]; intros s H; [done|].
  destruct s as [|b s]; [done|]. simpl in H.
  destruct (Ascii.eqb_spec a b) as [->|]; [|done].
  rewrite append_cons. cbn [String.length Str.drop]. f_equal. by apply IH.
Qed.

Lemma replace_go_spec old new s : forall k,
  old <> "" -> Replaced old new (Str.drop k s) (Str.replace_go old new k s).
Proof.
  induction s as [|c s IH]; intros k Hold.
  - destruct k; constructor.
  - destruct k as [|k]; cbn [Str.drop Str.replace_go]; [|by apply IH].
    destruct (Str.is_prefix old (String c s)) eqn:Hp.
    + pose proof (is_prefix_drop _ _ Hp) as Hs.
      destruct old as [|a old]; [done|].
      cbn [String.length Str.drop] in Hs.
      replace (String.length (String a old) - 1)%nat with (String.length old)
        by (cbn [String.length]; lia).
      rewrite Hs at 1. constructor. by apply IH.
    + constructor; [done|]. by apply (IH 0%nat).
Qed.

(** [s.replace(old, new)] replaces every occurrence of [old], from the
    left. *)
Lemma replace_spec s old new :
  old <> "" -> Replaced old new s (Str.replace s old new).
Proof.
  intros Hold. unfold Str.replace. destruct old as [|a old]; [done|].
  by apply (replace_go_spec _ _ _ 0%nat).
Qed.

(** Where [old] does not occur, exactly as written, nothing changes. *)
Lemma replace_absent s old new :
  Str.contains old s = false -> Str.replace s old new = s.
Proof.
  intros H. unfold Str.replace. destruct old as [|a old].
  { by destruct s. }
  induction s as [|c s IH]; [done|].
  cbn [Str.contains] in H. apply orb_false_elim in H as [Hp Hc].
  cbn [Str.replace_go]. rewrite Hp. f_equal. by apply IH.
Qed.

(** A stretch of the text that a pattern matches without regard to case
    is the pattern up to case. *)
Lemma is_prefix_nocase_split p s :
  Str.is_prefix_nocase p s = true ->
  s = Str.take (String.length p) s +:+ Str.drop (String.length p) s /\
  same_nocase (Str.take (String.length p) s) p = true.
Proof.
  revert s. induction p as [|a p IH]; intros s H; [by destruct s|].
  destruct s as [|b s]; [done|]. cbn [Str.is_prefix_nocase] in H.
  destruct (Str.eq_nocase a b) eqn:Hab; [|done].
  destruct (IH s H) as [Hs Hsame].
  cbn [String.length Str.take Str.drop same_nocase]. rewrite append_cons, Hab.
  split; [by f_equal|done].
Qed.

Lemma replace_nocase_go_spec old new s : forall k,
  old <> "" ->
  Replaced_nocase old new (Str.drop k s) (Str.replace_nocase_go old new k s).
Proof.
  induction s as [|c s IH]; intros k Hold.
  - destruct k; constructor.
  - destruct k as [|k]; cbn [Str.drop Str.replace_nocase_go]; [|by apply IH].
    destruct (Str.is_prefix_nocase old (String c s)) eqn:Hp.
    + destruct (is_prefix_nocase_split _ _ Hp) as [Hs Hsame].
      destruct old as [|a old]; [done|].
      cbn [String.length Str.take Str.drop] in Hs, Hsame.
      replace (String.length (String a old) - 1)%nat with (String.length old)
        by (cbn [String.length]; lia).
      rewrite Hs at 1. constructor; [done|]. by apply IH.
    + constructor; [done|]. by apply (IH 0%nat).
Qed.

(** On a pattern of ordinary characters, every stretch of the text that
    is the pattern up to case is replaced, from the left. *)
Lemma replace_nocase_spec s old new :
  old <> "" -> Replaced_nocase old new s (Str.replace_nocase s old new).
Proof. intros Hold. by apply (replace_nocase_go_spec _ _ _ 0%nat). Qed.

Lemma literal_pattern_not_empty p : literal_pattern p = true -> p <> "".
Proof. by intros H ->. Qed.

Lemma literal_pattern_terminated p :
  literal_pattern p = true -> unterminated_set p = false.
Proof.
  unfold literal_pattern. intros [_ H]%andb_prop.
  induction p as [|c p IH]; [done|]. cbn [all_chars unterminated_set] in *.
  apply andb_prop in H as [Hc Hp]. unfold ordinary_char in Hc.
  apply andb_prop in Hc as [_ Hs].
  destruct (Ascii.eqb_spec c "["%char) as [->|_]; [done|].
  rewrite (IH Hp). by rewrite andb_false_r.
Qed.

(** [re.sub] on a pattern of ordinary characters, with the marker. *)
Lemma re_sub_literal E p :
  literal_pattern p = true ->
  re_sub E p marker = Substitutes (fun text => Str.replace_nocase text p marker).
Proof.
  intros H. unfold re_sub. rewrite (literal_pattern_terminated p H). by rewrite H.
Qed.

Lemma redact_loop_app E ps qs : forall out,
  redact_loop E out (ps ++ qs) =
    rbind (redact_loop E out ps) (fun out => redact_loop E out qs).
Proof.
  induction ps as [|p ps IH]; intros out; [done|].
  rewrite <- app_comm_cons. cbn [redact_loop].
  destruct (redact_step E out p) as [out'|e]; [|done]. cbn [rbind]. apply IH.
Qed.

Lemma redact_text_list E text (ps : list string) :
  redact_text E text (pattern_list ps) = redact_loop E text (VStr <$> ps).
Proof. unfold redact_text, pattern_list. by destruct ps. Qed.

Lemma redact_text_snoc E text ps p :
  redact_text E text (pattern_list (ps ++ [p])) =
    rbind (redact_text E text (pattern_list ps))
      (fun out => redact_step E out (VStr p)).
Proof.
  rewrite !redact_text_list, fmap_app, redact_loop_app.
  destruct (redact_loop E text (VStr <$> ps)) as [out|e]; [|done].
  cbn [rbind fmap list_fmap redact_loop]. by destruct (redact_step E out (VStr p)).
Qed.

Lemma redact_stable E out ps :
  Forall (fun p => redact_step E out (VStr p) = Ok out) ps ->
  redact_text E out (pattern_list ps) = Ok out.
Proof.
  intros H. rewrite redact_text_list.
  induction H as [|p ps' Hp _ IH]; [done|].
  cbn [fmap list_fmap redact_loop]. by rewrite Hp.
Qed.

(** The redaction of a string is a string. *)
Lemma redact_step_str E s p out :
  redact_step E (VStr s) p = Ok out -> exists s', out = VStr s'.
Proof.
  unfold redact_step. destruct p; try done.
  destruct (re_sub E s0 marker); intros [= <-]; eauto.
Qed.

Lemma redact_loop_str E ps : forall s out,
  redact_loop E (VStr s) ps = Ok out -> exists s', out = VStr s'.
Proof.
  induction ps as [|p ps IH]; intros s out; cbn [redact_loop].
  - intros [= <-]. eauto.
  - destruct (redact_step E (VStr s) p) as [out'|e] eqn:Hp; [|done].
    destruct (redact_step_str _ _ _ _ Hp) as [s' ->]. apply IH.
Qed.

Lemma redact_text_str E s patterns out :
  redact_text E (VStr s) patterns = Ok out -> exists s', out = VStr s'.
Proof.
  unfold redact_text. destruct (negb (truthy patterns)); [intros [= <-]; eauto|].
  destruct (py_iter patterns) as [ps|e]; [|done]. apply redact_loop_str.
Qed.

(** On a pattern that opens a character set and never closes it, the
    result does not depend on the [re] engine. *)
Lemma redact_step_unterminated E out p :
  unterminated_set p = true ->
  redact_step E (VStr out) (VStr p) = Ok (VStr (Str.replace out p marker)).
Proof. intros H. unfold redact_step, re_sub. by rewrite H. Qed.

(** C5, as the code has it. Redaction with no pattern returns the text
    unchanged; and redacting an already redacted text with the same
    patterns changes nothing, provided each pattern of the list, applied to
    the redacted text, leaves it as it is. That is so, in particular, when
    the patterns are ones [re] rejects and none of them occurs in the
    redacted text. *)
Theorem redact_identity_and_stability E text :
  redact_text E (VStr text) (pattern_list []) = Ok (VStr text) /\
  redact_text E (VStr text) VNone = Ok (VStr text) /\
  (forall P out,
     redact_text E (VStr text) (pattern_list P) = Ok (VStr out) ->
     Forall (fun p => redact_step E (VStr out) (VStr p) = Ok (VStr out)) P ->
     redact_text E (VStr out) (pattern_list P) = Ok (VStr out)) /\
  (forall P out,
     redact_text E (VStr text) (pattern_list P) = Ok (VStr out) ->
     Forall (fun p => re_sub E p marker = ReError /\
                      Str.contains p out = false) P ->
     redact_text E (VStr out) (pattern_list P) = Ok (VStr out)).
Proof.
  split; [done|]. split; [done|]. split.
  - intros P out _ HP. by apply redact_stable.
  - intros P out _ HP. apply redact_stable. eapply Forall_impl; [exact HP|].
    intros p [Hre Hc]. unfold redact_step. rewrite Hre.
    by rewrite replace_absent.
Qed.

Lemma redact_identity_and_stability_witness :
  redact_text Sample.env (VStr "call [REDACTED] now") (pattern_list ["[x"]) =
  Ok (VStr "call [REDACTED] now").
Proof.
  destruct (redact_identity_and_stability Sample.env "call [x now")
    as (_ & _ & _ & H).
  apply H; [reflexivity|]. repeat constructor.
Defined.

(** C5, as stated, fails: ["["] is not a valid regular expression, so it
    is replaced as a substring; the marker contains it, and a second pass
    redacts the marker. *)
Lemma redact_is_not_idempotent :
  redact_text Sample.env (VStr "[") (pattern_list ["["]) = Ok (VStr "[REDACTED]") /\
  redact_text Sample.env (VStr "[REDACTED]") (pattern_list ["["])
    = Ok (VStr "[REDACTED]REDACTED]") /\
  redact_text Sample.env (VStr "[REDACTED]") (pattern_list ["["])
    <> redact_text Sample.env (VStr "[") (pattern_list ["["]).
Proof. repeat split; vm_compute; congruence. Qed.

(** The same holds whatever the [re] engine does on other patterns. *)
Example redact_bracket_twice E :
  rbind (redact_text E (VStr "[") (pattern_list ["["]))
    (fun out => redact_text E out (pattern_list ["["]))
  = Ok (VStr "[REDACTED]REDACTED]").
Proof. reflexivity. Qed.

(** C8, as the code has it. Patterns are applied in list order. Each
    pattern is handed to [re.sub] with the marker and [IGNORECASE]. For a
    pattern of ordinary ASCII characters, every stretch of the text that
    is the pattern up to the case of ASCII letters is replaced by the
    marker, from the left; for another pattern that [re] accepts the
    result is the one [re.sub] gives. A pattern that [re] rejects, as it
    does one with a character set left open, is treated as a substring:
    each of its occurrences, taken from the left, is replaced by the
    marker, and an occurrence is a copy of the pattern as written, so a
    text in which the pattern does not occur in the same case is left as it
    is. A pattern on which [re.sub] raises another exception makes the
    redaction raise it. *)
Theorem redact_patterns_in_order E text :
  (forall ps p,
     redact_text E text (pattern_list (ps ++ [p])) =
       rbind (redact_text E text (pattern_list ps))
         (fun out => redact_step E out (VStr p))) /\
  (forall out p, literal_pattern p = true ->
     redact_step E (VStr out) (VStr p) =
       Ok (VStr (Str.replace_nocase out p marker)) /\
     Replaced_nocase p marker out (Str.replace_nocase out p marker)) /\
  (forall out p f,
     unterminated_set p = false -> literal_pattern p = false ->
     py_re_sub E p marker [IGNORECASE] = Substitutes f ->
     redact_step E (VStr out) (VStr p) = Ok (VStr (f out))) /\
  (forall p, unterminated_set p = true -> re_sub E p marker = ReError) /\
  (forall out p, re_sub E p marker = ReError -> p <> "" ->
     redact_step E (VStr out) (VStr p) = Ok (VStr (Str.replace out p marker)) /\
     Replaced p marker out (Str.replace out p marker)) /\
  (forall out p, re_sub E p marker = ReError -> Str.contains p out = false ->
     redact_step E (VStr out) (VStr p) = Ok (VStr out)) /\
  (forall out p, re_sub E p marker = ReOverflow ->
     redact_step E out (VStr p) = Raise OverflowError).
Proof.
  split; [apply redact_text_snoc|]. repeat split.
  - unfold redact_step. by rewrite re_sub_literal.
  - by apply replace_nocase_spec, literal_pattern_not_empty.
  - intros out p f Hu Hl Hf. unfold redact_step, re_sub. by rewrite Hu, Hl, Hf.
  - intros p Hu. unfold re_sub. by rewrite Hu.
  - unfold redact_step. by rewrite H.
  - by apply replace_spec.
  - intros out p H Hc. unfold redact_step. rewrite H. by rewrite replace_absent.
  - intros out p H. unfold redact_step. by rewrite H.
Qed.

Lemma redact_patterns_in_order_witness :
  redact_step Sample.env (VStr "Mail ALICE or alice") (VStr "Alice") =
    Ok (VStr "Mail [REDACTED] or [REDACTED]") /\
  redact_step Sample.env (VStr "id [A1") (VStr "[a") = Ok (VStr "id [A1").
Proof.
  destruct (redact_patterns_in_order Sample.env VNone)
    as (_ & Hlit & _ & Hset & _ & Hkeep & _).
  split.
  - by destruct (Hlit "Mail ALICE or alice" "Alice" eq_refl) as [-> _].
  - apply Hkeep; [by apply Hset|reflexivity].
Defined.

(** C8, as stated, fails: ["[a"] is not a valid regular expression and
    occurs in ["[A"] up to case, yet the text is left as it is. *)
Lemma literal_fallback_is_case_sensitive :
  re_sub Sample.env "[a" marker = ReError /\
  Str.lower "[A" = Str.lower "[a" /\
  redact_text Sample.env (VStr "[A") (pattern_list ["[a"]) = Ok (VStr "[A").
Proof. repeat split; vm_compute; reflexivity. Qed.

(** ** Admission control *)

Lemma rate_key_not_quota_key t w t' m : rate_key t w <> quota_key t' m.
Proof. unfold rate_key, quota_key. by rewrite !append_cons. Qed.

Lemma rate_allow_other_keys now st tenant N W key :
  (forall w, key <> rate_key tenant w) ->
  (rate_allow now st tenant N W).1 !! key = st !! key.
Proof.
  intros Hkey. unfold rate_allow.
  set (k := rate_key tenant _). assert (k <> key) as Hk by (intros <-; by eapply Hkey).
  unfold Redis.incr, Redis.incrby, Redis.expire.
  destruct (Redis.lookup now st k) as [e|]; cbn [fst snd].
  all: repeat (case_match; simplify_eq; cbn [fst snd] in * );
    rewrite ?lookup_delete_ne, ?lookup_insert_ne by done; done.
Qed.

Lemma rate_allow_quota_untouched now st tenant N W :
  quota_untouched st (rate_allow now st tenant N W).1.
Proof.
  intros t m. apply rate_allow_other_keys. intros w. apply not_eq_sym, rate_key_not_quota_key.
Qed.

Ltac finish_trace :=
  first
    [ exists []; split; [by rewrite app_nil_r|]
    | eexists; split; [rewrite <- ?app_assoc; reflexivity|] ].

(** A hypothesis that an event occurs in a concrete trace. *)
Ltac occurs_in H :=
  simpl in H; repeat (destruct H as [H|H]; [try discriminate|]); try done.

Ltac quota_kept :=
  match goal with
  | H : rate_allow ?n ?st ?t ?N ?W = (?g, _) |- quota_untouched ?st ?g =>
      let Hq := fresh in
      pose proof (rate_allow_quota_untouched n st t N W) as Hq;
      rewrite H in Hq; exact Hq
  | |- quota_untouched ?st ?st => by intros ? ?
  end.

Ltac check_trace :=
  finish_trace;
  repeat match goal with b : bool |- _ => destruct b end; simpl in *;
  first
    [ done
    | (split; [done|]); split; [|split];
      [ first [ intros _; quota_kept | by intros ? ]
      | intros ? Hin; occurs_in Hin; repeat split; try done; quota_kept
      | intros ? ? Hin; occurs_in Hin; repeat split; done ] ].

Ltac execute :=
  unfold admission_controlled, generate, route_forward, route_dispatch, route_ai,
    route_proxy, authenticate, RateLimiter_allow, QuotaManager_consume,
    call_provider, audit_log, redacted, rate_limited, bind, lift, raise, ret,
    emit;
  repeat (case_match; cbn [fst snd redis events] in *; simplify_eq).

Lemma route_forward_admission E c raw route_name path rq w :
  admission_controlled (route_forward E c raw route_name path rq) w.
Proof. execute. all: check_trace. Qed.

Lemma generate_admission E c raw model provider prompt rq w :
  admission_controlled (generate E c raw model provider prompt rq) w.
Proof. execute. all: check_trace. Qed.

(** C7. Whatever a request to the AI path ([route_forward], [generate])
    does, it does in this order: the quota counter is checked only after a
    rate-limit check has succeeded, and the provider is called only after
    a quota check has succeeded. A request that consults no quota leaves
    every quota counter as it was; a rate-limited request is answered 429,
    consults and changes no quota counter and calls no provider; a request
    refused for quota is answered 402 and calls no provider. *)
Theorem admission_control_order E c raw rq w :
  (forall route_name path,
     admission_controlled (route_forward E c raw route_name path rq) w) /\
  (forall model provider prompt,
     admission_controlled (generate E c raw model provider prompt rq) w).
Proof.
  split; intros.
  - apply route_forward_admission.
  - apply generate_admission.
Qed.

(** ** The theorems at work on the sample deployment *)

Lemma failed_update_keeps_policies_witness :
  policies (update_policies Sample.env DiskOk "tenants: ["
              (App Sample.policies "{}")).2 = Sample.policies /\
  policies (update_policies Sample.env (DumpFails "" "disk full") "{}"
              (App Sample.policies "{}")).2 = Sample.policies.
Proof.
  split.
  - destruct (failed_update_keeps_policies Sample.env DiskOk "tenants: ["
                (App Sample.policies "{}")) as (H & _).
    apply H. vm_compute. discriminate.
  - destruct (failed_update_keeps_policies Sample.env (DumpFails "" "disk full") "{}"
                (App Sample.policies "{}")) as (H & _).
    apply H. vm_compute. discriminate.
Defined.

Lemma upstream_url_construction_witness :
  exists rest,
    events (route_proxy Sample.env "acme" "b/c"
              (VDict [("upstream", VStr "http://x/a/")]) "GET"
              (Request (Some "Bearer k1") "GET" "q=1" [] "") Sample.start).2 =
    events Sample.start ++
      UpstreamRequested "GET" "http://x/a/b/c?q=1" [] "" :: rest.
Proof.
  destruct (upstream_url_construction Sample.env "http://x/a/" "b/c") as (_ & _ & H).
  apply (H "acme" [("upstream", VStr "http://x/a/")] "GET"
           (Request (Some "Bearer k1") "GET" "q=1" [] "") Sample.start).
  - reflexivity.
  - discriminate.
Defined.

Lemma empty_allow_methods_is_unset_witness :
  method_check (VDict [("upstream", VStr "http://x/a"); ("allow_methods", VList [])])
    "DELETE" = Ok true /\
  route_dispatch Sample.env Sample.now "acme" "open" "" (VDict [])
    (VDict [("upstream", VStr "http://x/a"); ("allow_methods", VList [])])
    (Sample.get "Bearer k1") Sample.start =
  route_dispatch Sample.env Sample.now "acme" "open" "" (VDict [])
    (VDict [("upstream", VStr "http://x/a")])
    (Sample.get "Bearer k1") Sample.start.
Proof.
  destruct (empty_allow_methods_is_unset Sample.env Sample.now "acme" "open" ""
              (VDict [])
              [("upstream", VStr "http://x/a"); ("allow_methods", VList [])]
              [("upstream", VStr "http://x/a")]
              (Sample.get "Bearer k1") Sample.start) as (Hcheck & Hsame & _).
  - reflexivity.
  - reflexivity.
  - intros k Hk. simpl. destruct (String.eqb k "upstream"); [done|].
    by destruct (String.eqb_spec k "allow_methods").
  - split; [|exact Hsame]. apply Hcheck. simpl. tauto.
Defined.

(** Three requests to the AI route within one minute: two are served, the
    third is rate limited and touches neither the quota nor the provider. *)
Example rate_limited_request_trace :
  let rq := Sample.post "Bearer k1" "one two three" in
  let h := route_forward Sample.env Sample.now Sample.policies "chat" "" rq in
  let w1 := (h Sample.start).2 in
  let w2 := (h w1).2 in
  status_of (h Sample.start).1 = 200 /\
  status_of (h w1).1 = 200 /\
  status_of (h w2).1 = 429 /\
  events w1 =
    [RateChecked "acme" true; QuotaChecked "acme" 3 (Ok true);
     ProviderCalled (VStr "ollama") (VStr "m") "one two three" "acme";
     Audited "acme" (VStr "ollama") (VStr "m") "one two three"
       "[echo] one two three"] /\
  events (h w2).2 = events w2 ++ [RateChecked "acme" false] /\
  counter_value 1000 (redis (h w2).2) (quota_key "acme" "2024-05") = 6.
Proof. repeat split; vm_compute; reflexivity. Qed.

(** A request above the remaining quota is answered 402 and calls no
    provider. *)
Example quota_refused_request_trace :
  let rq := Sample.post "Bearer k1" "one two three" in
  let w := World {[ quota_key "acme" "2024-05" := Redis.Entry 98 None ]} [] in
  let out := route_forward Sample.env Sample.now Sample.policies "chat" "" rq w in
  status_of out.1 = 402 /\
  events out.2 = [RateChecked "acme" true; QuotaChecked "acme" 3 (Ok false)] /\
  counter_value 1000 (redis out.2) (quota_key "acme" "2024-05") = 98.
Proof. repeat split; vm_compute; reflexivity. Qed.

(** A DELETE on a route that sets [allow_methods] to an empty list is
    forwarded to the upstream. *)
Example empty_allow_methods_request :
  let out := route_forward Sample.env Sample.now Sample.policies "open" "b/c"
               (Request (Some "Bearer k1") "delete" "q=1"
                  [("host", "gw"); ("authorization", "Bearer k1"); ("accept", "*")] "")
               Sample.start in
  status_of out.1 = 200 /\
  events out.2 =
    [RateChecked "acme" true;
     UpstreamRequested "DELETE" "http://x/a/b/c?q=1" [("accept", "*")] "";
     Audited "acme" (VStr "proxy") (VStr "http://x/a/b/c?q=1")
       "DELETE http://x/a/b/c?q=1" "ok"].
Proof. split; vm_compute; reflexivity. Qed.

(** * Further properties of the code *)

(** ** Keys of the shared store *)

Lemma mem_append c s t : Str.mem c (s +:+ t) = Str.mem c s || Str.mem c t.
Proof.
  induction s as [|d s IH]; [done|]. rewrite append_cons. cbn [Str.mem].
  destruct (Ascii.eqb c d); [done|exact IH].
Qed.

Lemma pretty_N_go_colon_free x : forall s,
  colon_free s -> colon_free (pretty_N_go x s).
Proof.
  induction (N.lt_wf_0 x) as [x _ IH]; intros s Hs.
  assert (x = 0 \/ 0 < x)%N as [->|Hx] by lia.
  - by rewrite pretty_N_go_0.
  - rewrite pretty_N_go_step by done. apply IH; [by apply N.div_lt|].
    unfold colon_free. cbn [Str.mem]. rewrite Hs.
    unfold pretty_N_char. by repeat case_match.
Qed.

Lemma pretty_Z_colon_free (z : Z) : colon_free (pretty z).
Proof.
  assert (forall p : positive, colon_free (pretty p)) as Hp.
  { intros p. unfold pretty, pretty_positive, pretty, pretty_N.
    case_decide; [done|]. by apply pretty_N_go_colon_free. }
  destruct z as [|p|p]; [done|apply Hp|].
  unfold pretty, pretty_Z, colon_free. rewrite mem_append. by rewrite (Hp p).
Qed.

(** A key [prefix ++ ":" ++ suffix] with a colon-free suffix determines
    both parts: the suffix starts after the last colon. *)
Lemma colon_inside a b : Str.mem ":"%char (a +:+ String ":" b) = true.
Proof. rewrite mem_append. cbn. by rewrite orb_true_r. Qed.

Lemma colon_split a b a' b' :
  colon_free b -> colon_free b' ->
  a +:+ ":" +:+ b = a' +:+ ":" +:+ b' -> a = a' /\ b = b'.
Proof.
  intros Hb Hb'. revert a'. induction a as [|c a IH]; intros [|c' a'] H.
  - rewrite !append_nil in H. by simplify_eq.
  - rewrite append_nil, !append_cons in H. injection H as _ H.
    rewrite ?append_nil in H.
    unfold colon_free in Hb. by rewrite H, colon_inside in Hb.
  - rewrite append_nil, !append_cons in H. injection H as _ H.
    rewrite ?append_nil in H.
    unfold colon_free in Hb'. by rewrite <- H, colon_inside in Hb'.
  - rewrite !append_cons in H. injection H as -> H.
    by destruct (IH a' H) as [-> ->].
Qed.

Lemma rate_key_inj t w t' w' : rate_key t w = rate_key t' w' -> t = t' /\ w = w'.
Proof.
  unfold rate_key. rewrite !append_cons, !append_nil. intros [= H].
  apply colon_split in H as [-> Hw]; [|apply pretty_Z_colon_free..].
  split; [done|]. by apply (inj pretty).
Qed.

Lemma quota_key_inj t m t' m' :
  colon_free m -> colon_free m' ->
  quota_key t m = quota_key t' m' -> t = t' /\ m = m'.
Proof.
  intros Hm Hm'. unfold quota_key. rewrite !append_cons, !append_nil. intros [= H].
  by apply colon_split in H.
Qed.

(** ** The rate limiter across tenants and windows *)

(** [rate_allow] written out on the counter it finds. *)
Lemma rate_allow_unfold now (st : Redis.store) tenant N W :
  let key := rate_key tenant (unix_seconds now / Z.max 1 W) in
  rate_allow now st tenant N W =
    match Redis.lookup now st key with
    | None =>
        if W <=? 0
        then (delete key st, if N <? 1 then (false, W) else (true, 0))
        else (<[key := Redis.Entry 1 (Some (now + 1000 * W))]> st,
              reply N W 0 (now + 1000 * W) now)
    | Some e =>
        let val := Redis.value e + 1 in
        if val =? 1 then
          if W <=? 0
          then (delete key st, if N <? 1 then (false, W) else (true, 0))
          else (<[key := Redis.Entry 1 (Some (now + 1000 * W))]> st,
                reply N W 0 (now + 1000 * W) now)
        else
          (<[key := Redis.Entry val (Redis.expire_at e)]> st,
           if N <? val then
             (false,
              let ttl := match Redis.expire_at e with
                         | None => -1
                         | Some t => (t - now + 500) / 1000
                         end in
              if negb (ttl =? 0) && (0 <? ttl) then ttl else W)
           else (true, 0))
    end.
Proof.
  intros key. unfold rate_allow. fold key.
  unfold Redis.incr, Redis.incrby.
  destruct (Redis.lookup now st key) as [e|] eqn:Hl.
  - cbn [fst snd]. destruct (Redis.value e + 1 =? 1) eqn:Hv.
    + assert (Redis.live now e = true) as Hlive.
      { unfold Redis.lookup in Hl. destruct (st !! key); [|done].
        destruct (Redis.live now e0) eqn:?; by simplify_eq. }
      unfold Redis.expire.
      rewrite redis_lookup_insert_live by (destruct e; exact Hlive).
      apply Z.eqb_eq in Hv.
      destruct (Z.leb_spec W 0); cbn [fst snd Redis.value].
      * rewrite delete_insert_eq. unfold Redis.ttl, Redis.lookup.
        rewrite lookup_delete_eq. rewrite Hv. cbn. by destruct (N <? 1).
      * rewrite insert_insert_eq. unfold Redis.ttl. rewrite Hv.
        rewrite redis_lookup_insert_live by (cbn; lia).
        cbn [Redis.expire_at]. unfold reply. change (0 + 1) with 1.
        by destruct (N <? 1).
    + assert (Redis.live now e = true) as Hlive.
      { unfold Redis.lookup in Hl. destruct (st !! key); [|done].
        destruct (Redis.live now e0) eqn:?; by simplify_eq. }
      unfold Redis.ttl. rewrite redis_lookup_insert_live by (destruct e; exact Hlive).
      cbn [Redis.expire_at]. cbv zeta. by destruct (N <? Redis.value e + 1).
  - cbn [fst snd]. change (1 =? 1) with true. cbv iota.
    unfold Redis.expire. rewrite redis_lookup_insert_live by done.
    destruct (Z.leb_spec W 0); cbn [fst snd Redis.value].
    + rewrite delete_insert_eq. unfold Redis.ttl, Redis.lookup.
      rewrite lookup_delete_eq. cbn. by destruct (N <? 1).
    + rewrite insert_insert_eq. unfold Redis.ttl.
      rewrite redis_lookup_insert_live by (cbn; lia).
      cbn [Redis.expire_at]. unfold reply. change (0 + 1) with 1.
      by destruct (N <? 1).
Qed.

Lemma rate_allow_other_key now (st : Redis.store) tenant N W key :
  key <> rate_key tenant (unix_seconds now / Z.max 1 W) ->
  (rate_allow now st tenant N W).1 !! key = st !! key.
Proof.
  intros Hk. rewrite rate_allow_unfold. cbv zeta.
  destruct (Redis.lookup now st _) as [e|];
    repeat (match goal with |- context [if ?b then _ else _] => destruct b end);
    cbn [fst];
    by rewrite ?lookup_delete_ne, ?lookup_insert_ne by (by apply not_eq_sym).
Qed.

Lemma redis_lookup_agree now (st st' : Redis.store) key :
  st' !! key = st !! key -> Redis.lookup now st' key = Redis.lookup now st key.
Proof. intros H. unfold Redis.lookup. by rewrite H. Qed.

(** The reply of a check depends on the store only through the counter of
    its own tenant and window. *)
Lemma rate_allow_reply_local now (st st' : Redis.store) tenant N W :
  st' !! rate_key tenant (unix_seconds now / Z.max 1 W) =
    st !! rate_key tenant (unix_seconds now / Z.max 1 W) ->
  (rate_allow now st' tenant N W).2 = (rate_allow now st tenant N W).2.
Proof.
  intros H. rewrite !rate_allow_unfold. cbv zeta.
  rewrite (redis_lookup_agree _ _ _ _ H).
  by repeat case_match.
Qed.

(** X1. Tenants do not share rate-limit counters: a check of one tenant
    changes no counter of another tenant, in whatever window, and the reply
    another tenant gets afterwards is the one it would have got without
    that check. *)
Theorem rate_limit_tenant_isolation now (st : Redis.store) tenant N W tenant' :
  tenant <> tenant' ->
  (forall w', (rate_allow now st tenant N W).1 !! rate_key tenant' w' =
              st !! rate_key tenant' w') /\
  (forall now' N' W',
     (rate_allow now' (rate_allow now st tenant N W).1 tenant' N' W').2 =
     (rate_allow now' st tenant' N' W').2).
Proof.
  intros Hne.
  assert (forall w', (rate_allow now st tenant N W).1 !! rate_key tenant' w' =
                     st !! rate_key tenant' w') as Hkeep.
  { intros w'. apply rate_allow_other_key. intros H.
    by apply rate_key_inj in H as [-> _]. }
  split; [exact Hkeep|]. intros now' N' W'. apply rate_allow_reply_local, Hkeep.
Qed.

Lemma rate_limit_tenant_isolation_witness :
  (rate_allow 2000 (rate_allow 1000 ∅ "acme" 1 60).1 "beta:0" 1 60).2 =
  (rate_allow 2000 ∅ "beta:0" 1 60).2.
Proof.
  destruct (rate_limit_tenant_isolation 1000 ∅ "acme" 1 60 "beta:0") as [_ H].
  - discriminate.
  - apply H.
Defined.

(** Replies and final store of a run that starts a window. *)
Lemma rate_run_app ts1 : forall ts2 (st : Redis.store) tenant N W,
  rate_run (ts1 ++ ts2) st tenant N W =
    rate_run ts1 st tenant N W ++
    rate_run ts2 (rate_run_store ts1 st tenant N W) tenant N W.
Proof.
  induction ts1 as [|t ts1 IH]; intros ts2 st tenant N W; [done|].
  simpl. destruct (rate_allow t st tenant N W) as [st' r] eqn:Hr. simpl.
  by rewrite IH.
Qed.

Lemma rate_run_store_other_key ts : forall (st : Redis.store) tenant N W key,
  Forall (fun t => key <> rate_key tenant (unix_seconds t / Z.max 1 W)) ts ->
  rate_run_store ts st tenant N W !! key = st !! key.
Proof.
  induction ts as [|t ts IH]; intros st tenant N W key Hall; [done|].
  apply Forall_cons in Hall as [Ht Hall]. cbn [rate_run_store].
  rewrite IH by done. by apply rate_allow_other_key.
Qed.

Lemma rate_run_counting_allowed tenant N W k ts : forall (st : Redis.store) c e,
  0 < W -> st !! rate_key tenant k = Some (Redis.Entry c (Some e)) -> 1 <= c ->
  Forall (fun t => in_window W k t /\ t <= e) ts ->
  c + Z.of_nat (length ts) <= N ->
  rate_run ts st tenant N W = replicate (length ts) (true, 0).
Proof.
  induction ts as [|t ts IH]; intros st c e HW Hst Hc Hall Hlen; [done|].
  apply Forall_cons in Hall as [[Hw He] Hall]. cbn [length] in Hlen.
  cbn [rate_run]. rewrite (rate_allow_counting tenant N W k HW t st c e Hw Hst Hc He).
  unfold reply at 1. destruct (Z.ltb_spec N (c + 1)); [lia|].
  cbn [length replicate]. f_equal.
  apply (IH _ (c + 1) e); try done; try lia. apply lookup_insert_eq.
Qed.

Lemma rate_run_all_allowed tenant N W k ts (st : Redis.store) :
  0 < W -> st !! rate_key tenant k = None ->
  Forall (in_window W k) ts -> Z.of_nat (length ts) <= N ->
  rate_run ts st tenant N W = replicate (length ts) (true, 0).
Proof.
  intros HW Hfresh Hwin Hlen. destruct ts as [|t1 ts]; [done|].
  apply Forall_cons in Hwin as [Hw1 Hwin]. cbn [length] in Hlen.
  cbn [rate_run].
  rewrite (rate_allow_fresh tenant N W k HW t1 st Hw1)
    by (by apply redis_lookup_None).
  unfold reply at 1. destruct (Z.ltb_spec N (0 + 1)); [lia|].
  cbn [length replicate]. f_equal.
  apply (rate_run_counting_allowed tenant N W k ts _ 1 (t1 + 1000 * W));
    try done; try lia.
  - apply lookup_insert_eq.
  - rewrite Forall_forall in Hwin. apply Forall_forall. intros x Hx.
    split; [by apply Hwin|].
    pose proof (in_window_bounds W k x HW (Hwin x Hx)).
    pose proof (in_window_bounds W k t1 HW Hw1). lia.
Qed.

(** X2. The window is fixed, not sliding: checks that fall in two
    different windows, at most [requests] in each, are all allowed, however
    close in time the two groups are. Twice [requests] checks can so pass
    within an arbitrarily short span around a window boundary. *)
Theorem rate_limit_boundary_burst tenant N W k k' ts1 ts2 (st : Redis.store) :
  0 < W -> k <> k' ->
  st !! rate_key tenant k = None -> st !! rate_key tenant k' = None ->
  Forall (in_window W k) ts1 -> Forall (in_window W k') ts2 ->
  Z.of_nat (length ts1) <= N -> Z.of_nat (length ts2) <= N ->
  rate_run (ts1 ++ ts2) st tenant N W =
    replicate (length ts1 + length ts2) (true, 0).
Proof.
  intros HW Hk Hst Hst' Hw1 Hw2 Hl1 Hl2.
  rewrite rate_run_app, replicate_add.
  rewrite (rate_run_all_allowed tenant N W k ts1 st) by done.
  f_equal. apply (rate_run_all_allowed tenant N W k'); try done.
  rewrite rate_run_store_other_key; [done|].
  eapply Forall_impl; [exact Hw1|]. intros t [_ Ht] Heq.
  apply rate_key_inj in Heq as [_ Heq]. rewrite Z.max_r in Heq by lia. congruence.
Qed.

Lemma rate_limit_boundary_burst_witness :
  rate_run ([59998; 59999] ++ [60000; 60001]) ∅ "acme" 2 60 =
    replicate (2 + 2) (true, 0).
Proof.
  apply (rate_limit_boundary_burst "acme" 2 60 0 1 [59998; 59999] [60000; 60001] ∅).
  - lia.
  - lia.
  - reflexivity.
  - reflexivity.
  - repeat constructor; vm_compute; congruence.
  - repeat constructor; vm_compute; congruence.
  - simpl; lia.
  - simpl; lia.
Defined.

(** X3. A window length that is not positive switches the limiter off:
    the counter is deleted as soon as it is created, so that every check
    finds none. With [requests >= 1] every check is allowed; with
    [requests < 1] every check is denied with [retry_after = per_seconds],
    which is not positive. The store is left as it was. *)
Theorem rate_limit_without_window tenant N W times (st : Redis.store) :
  W <= 0 ->
  (forall w, st !! rate_key tenant w = None) ->
  rate_run times st tenant N W =
    replicate (length times) (if N <? 1 then (false, W) else (true, 0)) /\
  rate_run_store times st tenant N W = st.
Proof.
  intros HW Hst. induction times as [|t ts [IH1 IH2]]; [done|].
  assert (rate_allow t st tenant N W =
          (st, if N <? 1 then (false, W) else (true, 0))) as Hstep.
  { rewrite rate_allow_unfold. cbv zeta.
    rewrite redis_lookup_None by apply Hst.
    destruct (Z.leb_spec W 0); [|lia]. by rewrite delete_id by apply Hst. }
  cbn [rate_run rate_run_store length replicate]. rewrite Hstep. cbn [fst].
  by rewrite IH1, IH2.
Qed.

Lemma rate_limit_without_window_witness :
  rate_run [1000; 1001; 1002; 1003] ∅ "acme" 1 0 = replicate 4 (true, 0) /\
  rate_run_store [1000; 1001; 1002; 1003] ∅ "acme" 1 0 = ∅.
Proof.
  apply (rate_limit_without_window "acme" 1 0 [1000; 1001; 1002; 1003] ∅).
  - lia.
  - reflexivity.
Defined.

(** ** The quota counter on any store *)

Lemma redis_lookup_is_live now (st : Redis.store) key e :
  Redis.lookup now st key = Some e -> Redis.live now e = true.
Proof.
  unfold Redis.lookup. destruct (st !! key) as [e0|]; [|done].
  destruct (Redis.live now e0) eqn:?; by intros [= <-].
Qed.

Lemma month_end_timeout now mend :
  now < mend + 1000 ->
  0 < (mend - now) ÷ 1000 + 60 * 60 * 24 /\
  mend + 86400000 - 1000 < now + 1000 * ((mend - now) ÷ 1000 + 60 * 60 * 24)
    < mend + 86400000 + 1000.
Proof.
  intros H.
  pose proof (Z.quot_rem' (mend - now) 1000) as Hq.
  assert (-1000 < Z.rem (mend - now) 1000 < 1000) as Hr.
  { destruct (Z.le_gt_cases 0 (mend - now)) as [Hp|Hn].
    - pose proof (Z.rem_bound_pos (mend - now) 1000 Hp). lia.
    - pose proof (Z.rem_bound_pos_neg (mend - now) 1000). lia. }
  generalize dependent ((mend - now) ÷ 1000).
  generalize dependent (Z.rem (mend - now) 1000). intros. lia.
Qed.

(** X4. On any store, whatever timeout the counter of the tenant has and
    whatever the other keys hold, for a counter and a token count that
    are not negative and a cap below [2^53] (beyond it the doubles of the
    script no longer tell a sum from the cap): a [quota_consume] that
    would take the counter over the cap returns failure and leaves the
    whole store as it was; one that fits returns success and writes the
    new value with a timeout that falls within a second of 24 hours after
    the last second of the month, and changes no other key. *)
Theorem quota_consume_on_any_store srv c (st : Redis.store) tenant tokens cap :
  let key := quota_key tenant (year_month c) in
  let cur := counter_value (now_ms c) st key in
  real_clock c -> 0 <= cur -> 0 <= tokens -> cap < 2 ^ 53 ->
  (cap < cur + tokens ->
     quota_consume srv c st tenant tokens cap = (st, Ok false)) /\
  (cur + tokens <= cap ->
   exists e,
     quota_consume srv c st tenant tokens cap =
       (<[key := Redis.Entry (cur + tokens) (Some e)]> st, Ok true) /\
     month_end_ms c + 86400000 - 1000 < e < month_end_ms c + 86400000 + 1000 /\
     forall key', key' <> key ->
       (quota_consume srv c st tenant tokens cap).1 !! key' = st !! key').
Proof.
  intros key cur Hc Hcur Htok Hcap.
  rewrite (quota_consume_exact srv c st tenant tokens cap Hc Hcur Htok Hcap).
  fold key cur. split.
  - intros Hgt. by destruct (Z.ltb_spec cap (cur + tokens)); [|lia].
  - intros Hle. destruct (Z.ltb_spec cap (cur + tokens)); [lia|].
    destruct (month_end_timeout (now_ms c) (month_end_ms c)) as [_ Hbounds];
      [unfold real_clock in Hc; lia|].
    eexists. split; [reflexivity|]. split; [exact Hbounds|].
    intros key' Hk. cbn [fst]. by rewrite lookup_insert_ne.
Qed.

Lemma quota_consume_on_any_store_witness :
  exists e,
    quota_consume (redis_server Sample.env) (Clock 1000 "2024-05" 5000)
       {[ quota_key "acme" "2024-05" := Redis.Entry 40 None ]} "acme" 10 100 =
      (<[quota_key "acme" "2024-05" := Redis.Entry (40 + 10) (Some e)]>
         {[ quota_key "acme" "2024-05" := Redis.Entry 40 None ]}, Ok true) /\
    5000 + 86400000 - 1000 < e < 5000 + 86400000 + 1000.
Proof.
  destruct (quota_consume_on_any_store (redis_server Sample.env)
              (Clock 1000 "2024-05" 5000)
              {[ quota_key "acme" "2024-05" := Redis.Entry 40 None ]}
              "acme" 10 100) as [_ H].
  - vm_compute. split; [done|]. congruence.
  - vm_compute. congruence.
  - lia.
  - lia.
  - destruct H as (e & He & Hb & _).
    + vm_compute. congruence.
    + exists e. split; [exact He|exact Hb].
Defined.

(** On every input, [quota_consume] writes to the key of the tenant and
    the month only. *)
Lemma quota_consume_other_key srv c (st : Redis.store) tenant tokens cap key' :
  key' <> quota_key tenant (year_month c) ->
  (quota_consume srv c st tenant tokens cap).1 !! key' = st !! key'.
Proof.
  intros Hk. unfold quota_consume, quota_script, Redis.call_incrby,
    Redis.call_expire, Redis.incrby, Redis.expire.
  repeat (case_match; simplify_eq; cbn [fst snd] in * ); try done.
  all: by rewrite ?lookup_delete_ne, ?lookup_insert_ne by (by apply not_eq_sym).
Qed.

(** On every input, what it returns depends on that key only. *)
Lemma quota_consume_reply_local srv c (st st' : Redis.store) tenant tokens cap :
  st' !! quota_key tenant (year_month c) = st !! quota_key tenant (year_month c) ->
  (quota_consume srv c st' tenant tokens cap).2 =
  (quota_consume srv c st tenant tokens cap).2.
Proof.
  intros H. unfold quota_consume, quota_script, Redis.call_incrby,
    Redis.call_expire, Redis.incrby, Redis.get.
  rewrite (redis_lookup_agree _ _ _ _ H).
  destruct (Redis.lookup (now_ms c) st _) as [e|];
    cbn [fmap option_fmap option_map];
    repeat (case_match; simplify_eq; cbn [fst snd] in * ); done.
Qed.

(** X5. Tenants do not share quota counters: a [quota_consume] of one
    tenant changes no quota counter of another tenant and no rate-limit
    counter, and what another tenant is granted afterwards is what it
    would have been granted without it. Months are written without a
    colon, as [%Y-%m] writes them. *)
Theorem quota_tenant_isolation srv c (st : Redis.store) tenant tokens cap tenant' :
  tenant <> tenant' -> colon_free (year_month c) ->
  (forall m', colon_free m' ->
     (quota_consume srv c st tenant tokens cap).1 !! quota_key tenant' m' =
     st !! quota_key tenant' m') /\
  (forall t w,
     (quota_consume srv c st tenant tokens cap).1 !! rate_key t w =
     st !! rate_key t w) /\
  (forall c' tokens' cap', colon_free (year_month c') ->
     (quota_consume srv c' (quota_consume srv c st tenant tokens cap).1
        tenant' tokens' cap').2 =
     (quota_consume srv c' st tenant' tokens' cap').2).
Proof.
  intros Hne Hm.
  assert (forall m', colon_free m' ->
            (quota_consume srv c st tenant tokens cap).1 !! quota_key tenant' m' =
            st !! quota_key tenant' m') as Hkeep.
  { intros m' Hm'. apply quota_consume_other_key. intros H.
    by apply quota_key_inj in H as [-> _]. }
  split; [exact Hkeep|]. split.
  - intros t w. apply quota_consume_other_key, rate_key_not_quota_key.
  - intros c' tokens' cap' Hm'. by apply quota_consume_reply_local, Hkeep.
Qed.

Lemma quota_tenant_isolation_witness :
  (quota_consume (redis_server Sample.env) (Clock 2000 "2024-05" 5000)
     (quota_consume (redis_server Sample.env) (Clock 1000 "2024-05" 5000) ∅
        "acme" 90 100).1 "beta" 90 100).2 =
  (quota_consume (redis_server Sample.env) (Clock 2000 "2024-05" 5000) ∅
     "beta" 90 100).2.
Proof.
  destruct (quota_tenant_isolation (redis_server Sample.env)
              (Clock 1000 "2024-05" 5000) ∅ "acme" 90 100 "beta")
    as (_ & _ & H).
  - discriminate.
  - reflexivity.
  - apply H. reflexivity.
Defined.

(** ** The token index and the header *)

Lemma add_tokens_lookup t tok toks : forall (m m' : gmap string string),
  PolicyStore.add_tokens t toks m = Ok m' ->
  m' !! tok = if existsb (fun x => is_str x tok) toks then Some t else m !! tok.
Proof.
  induction toks as [|x toks IH]; intros m m' H; [by simplify_eq/=|].
  destruct x; cbn [PolicyStore.add_tokens existsb is_str orb] in *;
    try discriminate; try (by apply IH).
  rewrite (IH _ _ H). destruct (String.eqb_spec tok s) as [->|Hne]; cbn [orb].
  - destruct (existsb _ toks); [done|]. by rewrite lookup_insert_eq.
  - destruct (existsb _ toks); [done|]. by rewrite lookup_insert_ne.
Qed.

Lemma token_map_go_lookup tok d : forall (m m' : gmap string string),
  PolicyStore.token_map_go d m = Ok m' ->
  m' !! tok = match last_owner tok d with Some t => Some t | None => m !! tok end.
Proof.
  induction d as [|[t cfg] d IH]; intros m m' H; [by simplify_eq/=|].
  cbn [PolicyStore.token_map_go last_owner] in *. unfold lists_token.
  destruct (py_get cfg "tokens" (VList [])) as [v|]; [|done]. cbn [rbind] in *.
  destruct (PolicyStore.tokens_of v) as [toks|]; [|done]. cbn [rbind] in *.
  destruct (PolicyStore.add_tokens t toks m) as [m1|] eqn:Hadd; [|done].
  cbn [rbind] in H. rewrite (IH _ _ H).
  destruct (last_owner tok d); [done|].
  rewrite (add_tokens_lookup _ _ _ _ _ Hadd).
  by destruct (existsb _ toks).
Qed.

(** X6. The token index gives a token to the last tenant that lists it:
    when the same token stands under several tenants, the one that comes
    last in the document wins, and a token no tenant lists is unknown. A
    header ["Bearer <token>"] resolves accordingly. *)
Theorem token_map_last_owner raw d m :
  py_get raw "tenants" (VDict []) = Ok (VDict d) ->
  PolicyStore.token_map raw = Ok m ->
  (forall tok, m !! tok = last_owner tok d) /\
  (forall tok, field tok ->
     get_tenant_from_token ("Bearer " +:+ tok) raw = Ok (last_owner tok d)).
Proof.
  intros Hd Hm.
  assert (forall tok, m !! tok = last_owner tok d) as Hlook.
  { intros tok. unfold PolicyStore.token_map in Hm. rewrite Hd in Hm.
    cbn [rbind] in Hm. rewrite (token_map_go_lookup tok _ _ _ Hm).
    by destruct (last_owner tok d). }
  split; [exact Hlook|]. intros tok [Hne Hs].
  unfold get_tenant_from_token. rewrite append_cons.
  change (String.eqb (String "B" _) "") with false. cbv iota.
  rewrite <- append_cons. rewrite split_bearer by done.
  rewrite Hm. cbn [rbind]. by rewrite Hlook.
Qed.

Lemma token_map_last_owner_witness :
  get_tenant_from_token "Bearer shared"
    (VDict [("tenants", VDict [
       ("acme", VDict [("tokens", VList [VStr "k1"; VStr "shared"])]);
       ("beta", VDict [("tokens", VList [VStr "shared"; VStr "k2"])])])]) =
  Ok (Some "beta").
Proof.
  set (d := [("acme", VDict [("tokens", VList [VStr "k1"; VStr "shared"])]);
             ("beta", VDict [("tokens", VList [VStr "shared"; VStr "k2"])])]).
  assert (exists m, PolicyStore.token_map (VDict [("tenants", VDict d)]) = Ok m)
    as [m Hm] by (eexists; reflexivity).
  destruct (token_map_last_owner (VDict [("tenants", VDict d)]) d m eq_refl Hm)
    as [_ H].
  apply (H "shared"). split; [discriminate|reflexivity].
Defined.

(** X7. Only the number of fields of the header and its second field
    count: whatever word stands first, a header of two fields resolves as
    ["Bearer <token>"] does; the first field is not compared with
    ["Bearer"]. *)
Theorem header_scheme_is_ignored scheme tok raw :
  field scheme -> field tok ->
  get_tenant_from_token (scheme +:+ " " +:+ tok) raw =
  get_tenant_from_token ("Bearer " +:+ tok) raw.
Proof.
  intros [Hs1 Hs2] [Ht1 Ht2]. unfold get_tenant_from_token.
  rewrite (split_two scheme tok) by done. rewrite split_bearer by done.
  destruct scheme as [|c scheme]; [done|]. rewrite !append_cons.
  reflexivity.
Qed.

Lemma header_scheme_is_ignored_witness :
  get_tenant_from_token ("Basic" +:+ " " +:+ "k1") Sample.policies =
  get_tenant_from_token ("Bearer " +:+ "k1") Sample.policies.
Proof.
  apply header_scheme_is_ignored; split; (discriminate || reflexivity).
Defined.

(** ** Lookups in the policy document *)

(** X8. [route_for_tenant] returns a non-empty config exactly when the
    document holds it: under ["tenants"], the tenant, ["routes"] and the
    route name, each level above it being a mapping. So for an unknown
    tenant, a tenant without routes or an unknown route name it returns
    nothing that is non-empty. *)
Theorem route_for_tenant_finds_what_is_there raw tenant route_name cfg :
  truthy cfg = true ->
  (PolicyStore.route_for_tenant raw tenant route_name = Ok cfg <->
   exists top tenants tcfg routes,
     raw = VDict top /\ assoc "tenants" top = Some (VDict tenants) /\
     assoc tenant tenants = Some (VDict tcfg) /\
     assoc "routes" tcfg = Some (VDict routes) /\
     assoc route_name routes = Some cfg).
Proof.
  intros Ht. split.
  - unfold PolicyStore.route_for_tenant, PolicyStore.for_tenant.
    destruct raw as [| | | | |top]; try discriminate. cbn [py_get rbind].
    destruct (assoc "tenants" top) as [[| | | | |tenants]|] eqn:Htop;
      try discriminate; cbn [py_get rbind].
    + destruct (assoc tenant tenants) as [[| | | | |tcfg]|] eqn:Hten;
        try discriminate; cbn [py_get rbind].
      * destruct (assoc "routes" tcfg) as [routes|] eqn:Hr; cbn [truthy].
        -- destruct (truthy routes) eqn:Htr.
           ++ destruct routes as [| | | | |routes]; try discriminate.
              cbn [py_get]. destruct (assoc route_name routes) eqn:Hn.
              ** intros [= ->]. by exists top, tenants, tcfg, routes.
              ** intros [= <-]. discriminate.
           ++ cbn. intros [= <-]. discriminate.
        -- cbn. intros [= <-]. discriminate.
      * cbn. intros [= <-]. discriminate.
    + cbn. intros [= <-]. discriminate.
  - intros (top & tenants & tcfg & routes & -> & Htop & Hten & Hr & Hn).
    unfold PolicyStore.route_for_tenant, PolicyStore.for_tenant.
    cbn [py_get rbind]. rewrite Htop. cbn [py_get rbind]. rewrite Hten.
    cbn [py_get rbind]. rewrite Hr.
    destruct routes as [|kv routes]; [done|]. cbn [truthy py_get]. by rewrite Hn.
Qed.

Lemma route_for_tenant_finds_what_is_there_witness :
  PolicyStore.route_for_tenant Sample.policies "acme" "api" =
  Ok (VDict [("upstream", VStr "http://x/a")]).
Proof.
  apply route_for_tenant_finds_what_is_there; [reflexivity|].
  do 4 eexists. repeat split; reflexivity.
Defined.

(** ** The admin endpoints, composed *)

Lemma reload_policies_idempotent E a :
  reload_policies E (reload_policies E a).2 = reload_policies E a.
Proof.
  unfold reload_policies.
  destruct (PolicyStore_load E (policy_file a)) as [raw|e] eqn:H;
    cbn [snd policy_file]; by rewrite H.
Qed.

(** X9. Reloading right after a successful update changes nothing: the
    update has already installed what the file it wrote loads to. And,
    from any state, a second reload answers and leaves what the first
    did. *)
Theorem reload_after_update_is_noop E d body a r a' :
  update_policies E d body a = (Ok r, a') ->
  reload_policies E a' = (Ok r, a') /\
  (forall b, reload_policies E (reload_policies E b).2 = reload_policies E b).
Proof.
  intros H. split; [|apply reload_policies_idempotent].
  unfold update_policies in H.
  repeat (case_match; simplify_eq). unfold reload_policies. cbn [policy_file] in *.
  by match goal with H : PolicyStore_load _ _ = Ok _ |- _ => rewrite H end.
Qed.

Lemma reload_after_update_is_noop_witness :
  let a := App (VDict []) "" in
  exists r a',
    update_policies Sample.env DiskOk "{}" a = (Ok r, a') /\
    reload_policies Sample.env a' = (Ok r, a').
Proof.
  intros a.
  destruct (update_policies Sample.env DiskOk "{}" a) as [[r|e] a'] eqn:H;
    [|by vm_compute in H].
  exists r, a'. split; [done|].
  by destruct (reload_after_update_is_noop _ _ _ _ _ _ H).
Defined.

(** X10. An update that fails while writing answers 500 and keeps the
    active document, but the file now holds what was written before the
    failure: the next reload activates whatever that loads to, or fails
    on it and keeps the active document. *)
Theorem failed_write_reaches_next_reload E partial exc body a r a' :
  update_policies E (DumpFails partial exc) body a = (r, a') ->
  status_of r = 500 ->
  policies a' = policies a /\ policy_file a' = partial /\
  match yaml_safe_load E partial with
  | Some v =>
      policies (reload_policies E a').2 = (if truthy v then v else VDict []) /\
      status_of (reload_policies E a').1 = 200
  | None =>
      reload_policies E a' = (Raise YAMLError, a')
  end.
Proof.
  unfold update_policies. intros H Hs.
  repeat (case_match; simplify_eq); cbn in Hs; try discriminate.
  all: cbn [policies policy_file]; repeat split; try done.
  all: unfold reload_policies, PolicyStore_load; cbn [policy_file];
    repeat match goal with H : yaml_safe_load _ _ = _ |- _ => rewrite H end.
  all: try done.
  all: cbn [snd policies];
    by match goal with H : truthy _ = _ |- _ => rewrite H end.
Qed.

Lemma failed_write_reaches_next_reload_witness :
  let a := App Sample.policies "tenants: ..." in
  let a' := (update_policies Sample.env (DumpFails "{}" "disk full") "{}" a).2 in
  policies a' = Sample.policies /\
  policies (reload_policies Sample.env a').2 = VDict [].
Proof.
  intros a a'.
  destruct (failed_write_reaches_next_reload Sample.env "{}" "disk full" "{}" a _ _
              eq_refl eq_refl)
    as (H1 & _ & H2).
  split; [exact H1|]. exact (proj1 H2).
Defined.

(** ** What the handlers do to the world *)

Ltac unfold_endpoints :=
  unfold generate, proxy, route_forward, route_dispatch, route_ai,
    route_proxy, authenticate, RateLimiter_allow, QuotaManager_consume,
    call_provider, audit_log, redacted, rate_limited, bind, lift, raise, ret,
    emit in *.

Ltac run_endpoints :=
  unfold_endpoints;
  repeat (case_match; cbn [fst snd redis events status content] in *; simplify_eq).

Lemma token_map_no_tenants raw :
  py_get raw "tenants" (VDict []) = Ok (VDict []) ->
  PolicyStore.token_map raw = Ok ∅.
Proof. intros H. unfold PolicyStore.token_map. by rewrite H. Qed.

Lemma authenticate_no_tenants raw rq w :
  py_get raw "tenants" (VDict []) = Ok (VDict []) ->
  exists s d, authenticate raw rq w = (Raise (HTTPException s d), w) /\
              (s = 401 \/ s = 403).
Proof.
  intros H. unfold authenticate, get_tenant_from_token, bind, lift, raise, ret.
  rewrite (token_map_no_tenants _ H). cbn [rbind].
  repeat (case_match; simplify_eq); eauto.
  all: by match goal with H : ∅ !! _ = Some _ |- _ =>
            rewrite lookup_empty in H end.
Qed.

(** X11. A policy document without tenants, as an empty policy file loads
    to, lets nobody in: every request to [generate], [proxy] and
    [route_forward] is refused with 401 or 403, and nothing is counted,
    sent or logged. *)
Theorem no_tenants_no_access E c raw rq w :
  py_get raw "tenants" (VDict []) = Ok (VDict []) ->
  let refused (h : M response) :=
    exists s d, h w = (Raise (HTTPException s d), w) /\ (s = 401 \/ s = 403) in
  (forall model provider prompt, refused (generate E c raw model provider prompt rq)) /\
  (forall m url hdrs content, refused (proxy E c raw m url hdrs content rq)) /\
  (forall route_name path, refused (route_forward E c raw route_name path rq)) /\
  (forall file v, yaml_safe_load E file = Some v -> truthy v = false ->
     PolicyStore_load E file = Ok (VDict [])).
Proof.
  intros H refused. subst refused.
  destruct (authenticate_no_tenants raw rq w H) as (s & d & Ha & Hs).
  repeat split; intros.
  1-3: exists s, d; split; [|done].
  1-3: unfold generate, proxy, route_forward; unfold bind at 1; by rewrite Ha.
  unfold PolicyStore_load.
  by repeat match goal with H : _ = _ |- _ => rewrite H end.
Qed.

Lemma no_tenants_no_access_witness :
  exists s d,
    route_forward Sample.env Sample.now (VDict []) "api" "" (Sample.get "Bearer k1")
      Sample.start = (Raise (HTTPException s d), Sample.start) /\
    (s = 401 \/ s = 403).
Proof.
  destruct (no_tenants_no_access Sample.env Sample.now (VDict [])
              (Sample.get "Bearer k1") Sample.start eq_refl) as (_ & _ & H & _).
  apply H.
Defined.

(** X12. The plain proxy endpoint applies the rate limit and nothing
    else: it never consults or changes a quota counter and calls no
    provider. An upstream is requested at most once, only right after an
    allowed rate check, and then with the method (which the client is
    handed in upper case), the URL, the headers and the body of the
    payload as they came, an absent one being empty: no header is
    withheld here. A denied rate check is all that happens to a request
    answered 429; and whatever the upstream answers, the status of an
    answer that is returned is 200. *)
Theorem proxy_only_rate_limits E c raw m url hdrs content rq w :
  exists tr,
    events (proxy E c raw m url hdrs content rq w).2 = events w ++ tr /\
    existsb is_quota_check tr = false /\
    existsb is_provider_call tr = false /\
    quota_untouched (redis w) (redis (proxy E c raw m url hdrs content rq w).2) /\
    (forall ev, In ev tr -> is_upstream_request ev = true ->
       ev = UpstreamRequestedUpper m url (default [] hdrs) (default "" content) /\
       exists t rest, tr = RateChecked t true :: ev :: rest) /\
    (forall t, In (RateChecked t false) tr ->
       tr = [RateChecked t false] /\
       status_of (proxy E c raw m url hdrs content rq w).1 = 429) /\
    (forall resp, (proxy E c raw m url hdrs content rq w).1 = Ok resp ->
       status resp = 200).
Proof.
  run_endpoints.
  all: finish_trace.
  all: repeat match goal with b : bool |- _ => destruct b end;
    cbn [negb] in *; try done.
  all: split; [done|]; split; [done|]; split; [quota_kept|].
  all: split; [intros ev Hin Hup; occurs_in Hin; simplify_eq; eauto 10|].
  all: split; [intros t' Hin; occurs_in Hin; by simplify_eq|].
  all: intros resp' Hr; by simplify_eq.
Qed.

Lemma proxy_only_rate_limits_witness :
  let answer := proxy Sample.env Sample.now Sample.policies "get" "http://x/a" None None
                  (Sample.post "Bearer k1" "") Sample.start in
  events answer.2 =
    [RateChecked "acme" true; UpstreamRequestedUpper "get" "http://x/a" [] "";
     Audited "acme" (VStr "proxy") (VStr "http://x/a") "get http://x/a" "ok"] /\
  exists resp, answer.1 = Ok resp /\ status resp = 200.
Proof.
  intros answer. split; [reflexivity|].
  destruct (proxy_only_rate_limits Sample.env Sample.now Sample.policies "get"
              "http://x/a" None None (Sample.post "Bearer k1" "") Sample.start)
    as (tr & _ & _ & _ & _ & _ & _ & H).
  eexists. split; [reflexivity|]. apply H. reflexivity.
Defined.

Lemma forwarded_spec k v :
  forwarded (k, v) = true <-> ~ In (Str.lower k) stripped_headers.
Proof.
  unfold forwarded, stripped_headers. cbn [fst In].
  destruct (String.eqb_spec (Str.lower k) "host") as [->|H1];
    [cbn; split; [done|intros H; destruct H; auto]|].
  destruct (String.eqb_spec (Str.lower k) "authorization") as [->|H2];
    [cbn; split; [done|intros H; destruct H; auto]|].
  destruct (String.eqb_spec (Str.lower k) "content-length") as [->|H3];
    [cbn; split; [done|intros H; destruct H; auto 6]|].
  cbn. split; [|done]. intros _ [?|[?|[?|[]]]]; by simplify_eq.
Qed.

(** *** The mapping built from the headers *)

Lemma dict_set_assoc k v d k' :
  assoc k' (dict_set k v d) = if String.eqb k' k then Some v else assoc k' d.
Proof.
  induction d as [|[k0 v0] d IH]; cbn [dict_set assoc]; [done|].
  destruct (String.eqb_spec k k0) as [->|Hne]; cbn [assoc].
  - by destruct (String.eqb_spec k' k0).
  - rewrite IH. destruct (String.eqb_spec k' k0) as [->|?]; [|done].
    by destruct (String.eqb_spec k0 k) as [->|?].
Qed.

Lemma dict_set_keys k v d :
  (dict_set k v d).*1 = if bool_decide (k ∈ d.*1) then d.*1 else d.*1 ++ [k].
Proof.
  induction d as [|[k0 v0] d IH]; cbn [dict_set fmap list_fmap fst]; [done|].
  destruct (String.eqb_spec k k0) as [->|Hne]; cbn [fmap list_fmap fst].
  - rewrite bool_decide_eq_true_2; [done|]. apply elem_of_cons. by left.
  - fold (fmap (M:=list) (@fst string string)). rewrite IH.
    destruct (decide (k ∈ d.*1)) as [Hin|Hout].
    + rewrite !bool_decide_eq_true_2; [done| |done]. apply elem_of_cons. by right.
    + rewrite !bool_decide_eq_false_2; [done| |done].
      intros [?|?]%elem_of_cons; done.
Qed.

Lemma dict_of_snoc l k v : dict_of (l ++ [(k, v)]) = dict_set k v (dict_of l).
Proof. unfold dict_of. by rewrite fold_left_app. Qed.

(** The mapping holds each name once, with the value of its last
    occurrence. *)
Lemma dict_of_assoc l k : assoc k (dict_of l) = assoc k (rev l).
Proof.
  induction l as [|[k0 v0] l IH] using rev_ind; [done|].
  rewrite dict_of_snoc, dict_set_assoc, rev_app_distr. cbn [rev List.app assoc].
  by rewrite IH.
Qed.

Lemma dict_of_NoDup l : NoDup (dict_of l).*1.
Proof.
  induction l as [|[k0 v0] l IH] using rev_ind; [constructor|].
  rewrite dict_of_snoc, dict_set_keys. case_bool_decide; [done|].
  apply NoDup_app. split; [done|]. split; [|apply NoDup_singleton].
  intros x Hx ->%list_elem_of_singleton. done.
Qed.

Lemma assoc_In {A} k (v : A) d :
  NoDup d.*1 -> In (k, v) d <-> assoc k d = Some v.
Proof.
  induction d as [|[k0 v0] d IH]; cbn [assoc In fmap list_fmap fst]; [done|].
  intros [Hout Hnd]%NoDup_cons. specialize (IH Hnd).
  destruct (String.eqb_spec k k0) as [->|Hne].
  - split; [|intros [= ->]; by left]. intros [[= ->]|Hin]; [done|].
    exfalso. apply Hout. apply list_elem_of_fmap. exists (k0, v).
    split; [done|]. by apply list_elem_of_In.
  - rewrite <- IH. split; [|by right]. by intros [[= -> ->]|?].
Qed.

Lemma assoc_filter_forwarded k l :
  assoc k (List.filter forwarded l) =
    if forwarded (k, "") then assoc k l else None.
Proof.
  assert (forall v, forwarded (k, v) = forwarded (k, "")) as Hk by done.
  induction l as [|[k0 v0] l IH]; cbn [List.filter assoc]; [by destruct (forwarded _)|].
  destruct (String.eqb_spec k k0) as [<-|Hne].
  - rewrite (Hk v0). destruct (forwarded (k, "")) eqn:Hf; [|done].
    cbn [assoc]. by rewrite String.eqb_refl.
  - destruct (forwarded (k0, v0)); [|done]. cbn [assoc].
    by destruct (String.eqb_spec k k0).
Qed.

(** What the upstream is sent of the headers [l]. *)
Lemma forwarded_headers_spec l k v :
  In (k, v) (dict_of (List.filter forwarded l)) <->
  ~ In (Str.lower k) stripped_headers /\ assoc k (rev l) = Some v.
Proof.
  rewrite (assoc_In k v _ (dict_of_NoDup _)), dict_of_assoc.
  rewrite <- filter_rev, assoc_filter_forwarded, <- (forwarded_spec k "").
  destruct (forwarded (k, "")); [|split; [done|by intros [? _]]].
  split; [done|by intros [_ ?]].
Qed.

(** X13. What a named route sends upstream: at most one request, with the
    method of the incoming request in upper case and its body. The
    headers are made into a mapping: of the incoming headers, those are
    left out whose name in lower case is [host], [authorization] or
    [content-length], so that the caller's gateway token never reaches
    the upstream, however the header name is capitalised; each other name
    is sent once, with the value of its last occurrence. *)
Theorem route_forward_strips_headers E c raw route_name path rq w :
  exists tr,
    events (route_forward E c raw route_name path rq w).2 = events w ++ tr /\
    (forall m u h b, In (UpstreamRequested m u h b) tr ->
       List.filter is_upstream_request tr = [UpstreamRequested m u h b] /\
       m = Str.upper (method rq) /\ b = body rq /\
       h = dict_of (List.filter forwarded (headers rq)) /\
       NoDup h.*1 /\
       (forall k v, In (k, v) h <->
          ~ In (Str.lower k) stripped_headers /\
          assoc k (rev (headers rq)) = Some v)).
Proof.
  pose proof (forwarded_headers_spec (headers rq)) as Hf.
  pose proof (dict_of_NoDup (List.filter forwarded (headers rq))) as Hnd.
  run_endpoints.
  all: finish_trace.
  all: intros ? ? ? ? Hin; occurs_in Hin; simplify_eq; done.
Qed.

Lemma route_forward_strips_headers_witness :
  let rq := Request (Some "Bearer k1") "get" ""
              [("accept", "a"); ("Authorization", "Bearer k1"); ("x-id", "1");
               ("accept", "b"); ("HOST", "gw")] "" in
  events (route_forward Sample.env Sample.now Sample.policies "api" "" rq
            Sample.start).2 =
    [RateChecked "acme" true;
     UpstreamRequested "GET" "http://x/a/" [("accept", "b"); ("x-id", "1")] "";
     Audited "acme" (VStr "proxy") (VStr "http://x/a/") "GET http://x/a/" "ok"] /\
  [("accept", "b"); ("x-id", "1")] = dict_of (List.filter forwarded (headers rq)).
Proof.
  intros rq.
  assert (events (route_forward Sample.env Sample.now Sample.policies "api" "" rq
                    Sample.start).2 =
          [RateChecked "acme" true;
           UpstreamRequested "GET" "http://x/a/" [("accept", "b"); ("x-id", "1")] "";
           Audited "acme" (VStr "proxy") (VStr "http://x/a/") "GET http://x/a/" "ok"])
    as Hev by reflexivity.
  split; [exact Hev|].
  destruct (route_forward_strips_headers Sample.env Sample.now Sample.policies "api" ""
              rq Sample.start) as (tr & Htr & H).
  rewrite Hev in Htr. cbn [Sample.start events List.app] in Htr. subst tr.
  destruct (H "GET" "http://x/a/" [("accept", "b"); ("x-id", "1")] "")
    as (_ & _ & _ & Hh & _); [right; left; reflexivity|exact Hh].
Defined.

(** X14. A request turned away with 401, 403, 404 or 405 has cost and
    left nothing: it is not counted by the rate limiter, consumes no
    quota, and nothing is sent or logged; the world is as it was. *)
Theorem turned_away_leaves_no_trace E c raw rq w s d :
  turned_away s ->
  (forall route_name path,
     (route_forward E c raw route_name path rq w).1 = Raise (HTTPException s d) ->
     (route_forward E c raw route_name path rq w).2 = w) /\
  (forall model provider prompt,
     (generate E c raw model provider prompt rq w).1 = Raise (HTTPException s d) ->
     (generate E c raw model provider prompt rq w).2 = w) /\
  (forall m url hdrs content,
     (proxy E c raw m url hdrs content rq w).1 = Raise (HTTPException s d) ->
     (proxy E c raw m url hdrs content rq w).2 = w).
Proof.
  unfold turned_away. intros Hs. repeat split; intros *.
  all: run_endpoints; try done.
  all: intros ?; cbn [fst snd] in *; simplify_eq; try lia.
  all: repeat internal_raise; by cbn in *.
Qed.

Lemma turned_away_leaves_no_trace_witness :
  (route_forward Sample.env Sample.now Sample.policies "api" ""
     (Request (Some "Bearer k1") "TRACE" "" [] "") Sample.start).2 = Sample.start.
Proof.
  destruct (turned_away_leaves_no_trace Sample.env Sample.now Sample.policies
              (Request (Some "Bearer k1") "TRACE" "" [] "") Sample.start 405
              "method not allowed for this route") as (H & _).
  - right; right; right; reflexivity.
  - apply H. reflexivity.
Defined.

(** ** What leaves the gateway on the AI paths *)

Lemma rbind_as_str (r : result value) s :
  rbind r as_str = Ok s -> r = Ok (VStr s).
Proof. destruct r as [[]|]; cbn; intros; by simplify_eq. Qed.

Lemma redact_step_of_str E out p out' :
  redact_step E out p = Ok out' -> exists s, out = VStr s.
Proof.
  unfold redact_step. destruct p; try done.
  destruct (re_sub E s marker); [| |done]; destruct out; try done; eauto.
Qed.

Lemma redact_loop_of_str E ps : forall out s',
  redact_loop E out ps = Ok (VStr s') -> exists s, out = VStr s.
Proof.
  destruct ps as [|p ps]; intros out s'; cbn [redact_loop].
  - intros [= ->]. eauto.
  - destruct (redact_step E out p) as [out'|e] eqn:Hp; [|done].
    intros _. by eapply redact_step_of_str.
Qed.

(** Only a string is redacted to a string. *)
Lemma redact_text_of_str E text patterns s' :
  redact_text E text patterns = Ok (VStr s') -> exists s, text = VStr s.
Proof.
  unfold redact_text. destruct (negb (truthy patterns)); [intros [= ->]; eauto|].
  destruct (py_iter patterns) as [ps|e]; [|done]. apply redact_loop_of_str.
Qed.

(** X15. A request [generate] answers: the tenant paid one rate-limit
    slot and the token estimate of the prompt as it came; the provider
    was called once, with the prompt redacted by the tenant's
    [pii_patterns]; the audit log holds that redacted prompt and the
    redacted reply, and the answer carries the redacted reply. The prompt
    as it came goes nowhere. *)
Theorem generate_success E c raw model provider prompt rq w resp w' :
  generate E c raw model provider prompt rq w = (Ok resp, w') ->
  exists tenant policy patterns sent reply shown,
    authenticate raw rq w = (Ok tenant, w) /\
    PolicyStore.for_tenant raw tenant = Ok policy /\
    py_get policy "pii_patterns" (VList []) = Ok patterns /\
    redact_text E (VStr prompt) patterns = Ok (VStr sent) /\
    provider_reply E (VStr provider) (VStr model) sent tenant policy = Some reply /\
    redact_text E (VStr reply) patterns = Ok (VStr shown) /\
    events w' = events w ++
      [RateChecked tenant true;
       QuotaChecked tenant (estimate_tokens E prompt (VStr model)) (Ok true);
       ProviderCalled (VStr provider) (VStr model) sent tenant;
       Audited tenant (VStr provider) (VStr model) sent shown] /\
    resp = Response 200
             (VDict [("tenant", VStr tenant); ("provider", VStr provider);
                     ("model", VStr model); ("response", VStr shown)]).
Proof.
  intros H.
  unfold generate in H. unfold bind at 1 in H.
  destruct (authenticate raw rq w) as [[tenant|e] w0] eqn:Ha; [|done].
  assert (w0 = w) as ->.
  { pose proof (authenticate_world raw rq w) as Hw. by rewrite Ha in Hw. }
  unfold RateLimiter_allow, QuotaManager_consume, call_provider, audit_log,
    redacted, rate_limited, bind, lift, raise, ret, emit in H.
  repeat (case_match; cbn [fst snd redis events negb] in *; simplify_eq).
  repeat match goal with b : bool |- _ => destruct b end; simplify_eq/=.
  repeat match goal with
         | H : rbind (redact_text _ _ _) as_str = Ok _ |- _ =>
             apply rbind_as_str in H
         end.
  eexists _, _, _, _, _, _. repeat split; try eassumption.
  by rewrite <- !app_assoc.
Qed.

Lemma generate_success_witness :
  exists resp w',
    generate Sample.env Sample.now Sample.policies "m" "openai" "hello there"
      (Sample.post "Bearer k1" "") Sample.start = (Ok resp, w') /\
    length (events w') = 4%nat.
Proof.
  destruct (generate Sample.env Sample.now Sample.policies "m" "openai" "hello there"
              (Sample.post "Bearer k1" "") Sample.start) as [[resp|e] w'] eqn:H;
    [|by vm_compute in H].
  exists resp, w'. split; [done|].
  destruct (generate_success _ _ _ _ _ _ _ _ _ _ H)
    as (t & p & ps & s & r & sh & _ & _ & _ & _ & _ & _ & Hev & _).
  by rewrite Hev.
Defined.

(** X16. An AI route that answers: the prompt is the non-empty string
    under ["prompt"] of the JSON body; it is redacted only when the route
    sets [redact], and what is then counted against the quota, sent to the
    provider and written to the audit log is the prompt after that step,
    so that without [redact] the prompt is sent and logged as it came. The
    reply is redacted in every case, in the log and in the answer. The
    provider is the route's, or the tenant's default, or ["ollama"]. *)
Theorem route_ai_success E c tenant route_name policy route_cfg rq w resp w' :
  route_ai E c tenant route_name policy route_cfg rq w = (Ok resp, w') ->
  exists doc prompt redact patterns sent model route_provider default_provider
         reply shown,
    json_loads E (body rq) = Some doc /\
    py_get doc "prompt" VNone = Ok (VStr prompt) /\ prompt <> "" /\
    py_get route_cfg "redact" VNone = Ok redact /\
    py_get policy "pii_patterns" (VList []) = Ok patterns /\
    (if truthy redact then redact_text E (VStr prompt) patterns = Ok (VStr sent)
     else sent = prompt) /\
    py_get route_cfg "model" VNone = Ok model /\
    py_get route_cfg "provider" VNone = Ok route_provider /\
    py_get policy "default_provider" (VStr "ollama") = Ok default_provider /\
    let provider := if truthy route_provider then route_provider else default_provider in
    provider_reply E provider model sent tenant policy = Some reply /\
    redact_text E (VStr reply) patterns = Ok (VStr shown) /\
    events w' = events w ++
      [QuotaChecked tenant (estimate_tokens E sent model) (Ok true);
       ProviderCalled provider model sent tenant;
       Audited tenant provider model sent shown] /\
    resp = Response 200
             (VDict [("tenant", VStr tenant); ("route", VStr route_name);
                     ("response", VStr shown)]).
Proof.
  intros H.
  unfold route_ai, RateLimiter_allow, QuotaManager_consume, call_provider, audit_log,
    redacted, rate_limited, bind, lift, raise, ret, emit in H.
  assert (exists dp, py_get policy "default_provider" (VStr "ollama") = Ok dp) as [dp Hdp].
  { destruct policy; cbn in H; repeat (case_match; simplify_eq); cbn; eauto. }
  repeat (case_match; cbn [fst snd redis events negb] in *; simplify_eq).
  all: repeat match goal with b : bool |- _ => destruct b end; simplify_eq/=.
  all: repeat match goal with
         | H : rbind (redact_text _ _ _) as_str = Ok _ |- _ =>
             apply rbind_as_str in H
         end.
  all: match goal with H : as_str ?v = Ok _ |- _ => destruct v; simplify_eq/= end.
  all: try match goal with
           | H1 : py_get _ "default_provider" _ = Ok _,
             H2 : py_get _ "default_provider" _ = Ok _ |- _ =>
               rewrite H2 in H1; simplify_eq
           end.
  all: try match goal with
           | H1 : py_get _ "pii_patterns" _ = Ok _,
             H2 : py_get _ "pii_patterns" _ = Ok _ |- _ =>
               rewrite H2 in H1; simplify_eq
           end.
  all: repeat match goal with
       | H : redact_text _ ?v _ = Ok (VStr _) |- _ =>
           lazymatch v with
           | VStr _ => fail
           | _ => destruct (redact_text_of_str _ _ _ _ H) as [? ->]
           end
       end.
  all: match goal with
       | Hj : json_loads _ (body _) = Some ?doc,
         Hp : py_get ?doc "prompt" VNone = Ok (VStr ?prompt),
         Hr : py_get _ "redact" VNone = Ok ?redact,
         Hpat : py_get _ "pii_patterns" _ = Ok ?patterns,
         Hm : py_get _ "model" VNone = Ok ?model,
         Hrp : py_get _ "provider" VNone = Ok ?rp,
         Hrep : provider_reply _ _ _ ?sent _ _ = Some ?reply,
         Hsh : redact_text _ (VStr ?reply) _ = Ok (VStr ?shown) |- _ =>
           match goal with Hd : py_get _ "default_provider" _ = Ok ?dp |- _ =>
             exists doc, prompt, redact, patterns, sent, model, rp, dp, reply, shown end
       end.
  all: repeat match goal with H : truthy _ = _ |- _ => rewrite H end.
  all: repeat split; try done; try (by rewrite <- ?app_assoc).
  all: try (intros ->; simplify_eq/=).
Qed.

Lemma route_ai_success_witness :
  exists resp w',
    route_ai Sample.env Sample.now "acme" "chat"
      (VDict [("pii_patterns", VList [VStr "[secret"])])
      (VDict [("ai", VBool true); ("model", VStr "m")])
      (Sample.post "Bearer k1" "my [secret plan") Sample.start = (Ok resp, w') /\
    exists quota,
      events w' =
        [quota;
         ProviderCalled (VStr "ollama") (VStr "m") "my [secret plan" "acme";
         Audited "acme" (VStr "ollama") (VStr "m") "my [secret plan"
           "[echo] my [REDACTED] plan"].
Proof.
  destruct (route_ai Sample.env Sample.now "acme" "chat"
      (VDict [("pii_patterns", VList [VStr "[secret"])])
      (VDict [("ai", VBool true); ("model", VStr "m")])
      (Sample.post "Bearer k1" "my [secret plan") Sample.start)
    as [[resp|e] w'] eqn:H; [|by vm_compute in H].
  exists resp, w'. split; [done|].
  destruct (route_ai_success _ _ _ _ _ _ _ _ _ _ H)
    as (doc & prompt & redact & patterns & sent & model & rp & dp & reply & shown
        & Hdoc & Hprompt & _ & Hredact & Hpat & Hsent & Hmodel & Hrp & Hdp
        & Hreply & Hshown & Hev & _).
  vm_compute in Hdoc, Hredact, Hpat, Hmodel, Hrp, Hdp. simplify_eq.
  vm_compute in Hprompt. simplify_eq.
  vm_compute in Hsent. simplify_eq.
  vm_compute in Hreply. simplify_eq.
  vm_compute in Hshown. simplify_eq.
  eexists. rewrite Hev. reflexivity.
Defined.

(** ** The providers *)

(** X17. Without credentials in the policy no request goes to OpenAI or
    Azure: for these two the reply is the prompt behind the tag ["[mock] "],
    for a provider name the gateway does not know it is the prompt behind
    ["[echo] "], whatever the network would answer; only ["ollama"] is
    called, at its default host, and its failure is the failure of the
    call. *)
Theorem call_provider_without_credentials N provider model prompt tenant policy :
  py_get policy "provider_credentials" (VDict []) = Ok (VDict []) ->
  Providers.call_provider N provider model prompt tenant policy =
    if is_str provider "ollama"
    then Providers.awaited
           (Providers.call_ollama N model prompt (VStr "http://localhost:11434"))
    else if is_str provider "openai" || is_str provider "azure"
    then Ok ("[mock] " +:+ prompt)
    else Ok ("[echo] " +:+ prompt).
Proof.
  intros H. unfold Providers.call_provider. rewrite H. cbn [rbind].
  destruct provider as [| | |s| |]; cbn [is_str orb]; try reflexivity.
  destruct (String.eqb_spec "openai" s) as [<-|H1]; [reflexivity|].
  destruct (String.eqb_spec "azure" s) as [<-|H2]; [reflexivity|].
  destruct (String.eqb_spec "ollama" s) as [<-|H3]; reflexivity.
Qed.

Lemma call_provider_without_credentials_witness :
  Providers.call_provider offline (VStr "openai") (VStr "gpt") "hi" "acme" (VDict [])
  = Ok "[mock] hi".
Proof.
  apply (call_provider_without_credentials offline (VStr "openai") (VStr "gpt") "hi"
           "acme" (VDict [])).
  reflexivity.
Defined.

(** ** The upstream URL *)

Lemma rstrip_slashes s : slashes s -> Str.rstrip "/" s = "".
Proof.
  unfold slashes. induction s as [|c s IH]; [done|]. cbn [all_chars Str.rstrip].
  intros [Hc Hs]%andb_prop. rewrite (IH Hs), mem_slash. by rewrite Hc.
Qed.

Lemma rstrip_slashes_app u s :
  slashes s -> Str.rstrip "/" (u +:+ s) = Str.rstrip "/" u.
Proof.
  intros Hs. induction u as [|c u IH].
  - rewrite append_nil. by apply rstrip_slashes.
  - rewrite append_cons. cbn [Str.rstrip]. by rewrite IH.
Qed.

Lemma lstrip_slashes_app s p :
  slashes s -> Str.lstrip "/" (s +:+ p) = Str.lstrip "/" p.
Proof.
  unfold slashes. induction s as [|c s IH]; [by rewrite append_nil|].
  cbn [all_chars]. intros [Hc Hs]%andb_prop.
  rewrite append_cons. cbn [Str.lstrip]. rewrite mem_slash, Hc. by apply IH.
Qed.

(** X18. Slashes at the end of the configured upstream and at the start
    of the requested path do not count: however many there are, the
    request goes to the same URL, with one slash between the two. *)
Theorem upstream_url_ignores_extra_slashes upstream path qs tail lead :
  slashes tail -> slashes lead ->
  upstream_url (upstream +:+ tail) (lead +:+ path) qs = upstream_url upstream path qs.
Proof.
  intros Ht Hl. unfold upstream_url.
  by rewrite rstrip_slashes_app, lstrip_slashes_app.
Qed.

Lemma upstream_url_ignores_extra_slashes_witness :
  upstream_url ("http://x/a" +:+ "//") ("/" +:+ "b/c") "q=1" =
  upstream_url "http://x/a" "b/c" "q=1".
Proof. apply upstream_url_ignores_extra_slashes; reflexivity. Defined.

(** ** One counter for all the limits of a tenant *)

Lemma rate_run_limits_counting tenant W k checks : 0 < W -> forall st c e,
  st !! rate_key tenant k = Some (Redis.Entry c (Some e)) -> 1 <= c ->
  Forall (fun ch => in_window W k ch.1 /\ ch.1 <= e) checks ->
  forall (i : nat) t N, checks !! i = Some (t, N) ->
    rate_run_limits checks st tenant W !! i = Some (reply N W (c + Z.of_nat i) e t).
Proof.
  intros HW. induction checks as [|[t' N'] checks IH]; intros st c e Hl Hc Hall i t N Hi;
    [done|].
  apply Forall_cons in Hall as [[Hw He] Hall]. cbn [rate_run_limits fst] in *.
  rewrite (rate_allow_counting tenant N' W k HW _ _ _ _ Hw Hl Hc He).
  destruct i as [|i]; simpl in *.
  - inversion Hi; subst. by rewrite Z.add_0_r.
  - rewrite (IH _ (c + 1) e) with (t := t) (N := N); try done; try lia.
    + do 2 f_equal. lia.
    + apply lookup_insert_eq.
Qed.

(** X19. The rate counter belongs to the tenant and the window, not to
    the limit: when the checks of one window are made under different
    limits (routes with a [rate_limit] of their own, of the same window
    length), each check counts, allowed or denied, and check number [i]
    (from 0) of the window is allowed exactly when [i] is below the limit
    it is made under. *)
Theorem rate_counter_shared_by_limits tenant W k st t1 N1 checks :
  0 < W ->
  Redis.lookup t1 st (rate_key tenant k) = None ->
  StronglySorted Z.le (t1 :: checks.*1) ->
  Forall (in_window W k) (t1 :: checks.*1) ->
  forall (i : nat) t N, ((t1, N1) :: checks) !! i = Some (t, N) ->
    rate_run_limits ((t1, N1) :: checks) st tenant W !! i =
      Some (if N <=? Z.of_nat i then (false, retry_after_spec W t1 t) else (true, 0)).
Proof.
  intros HW Hfresh Hsorted Hwin i t N Hi.
  apply StronglySorted_inv in Hsorted as [_ Hle].
  apply Forall_cons in Hwin as [Hw1 Hwin].
  cbn [rate_run_limits].
  rewrite (rate_allow_fresh tenant N1 W k HW t1 st Hw1 Hfresh).
  destruct i as [|i]; simpl in *.
  - inversion Hi; subst. by rewrite reply_spec.
  - rewrite (rate_run_limits_counting tenant W k checks HW _ 1 (t1 + 1000 * W))
      with (t := t) (N := N); try done; try lia.
    + rewrite reply_spec. by replace (1 + Z.of_nat i) with (Z.of_nat (S i)) by lia.
    + apply lookup_insert_eq.
    + rewrite Forall_forall in Hwin, Hle. apply Forall_forall. intros [x n] Hx.
      assert (x ∈ checks.*1) as Hx' by (apply list_elem_of_fmap; by exists (x, n)).
      split; [by apply Hwin|]. cbn [fst].
      pose proof (in_window_bounds W k x HW (Hwin x Hx')).
      pose proof (in_window_bounds W k t1 HW Hw1). lia.
Qed.

Lemma rate_counter_shared_by_limits_witness :
  rate_run_limits [(1000, 5); (2000, 5); (3000, 1); (4000, 5)] ∅ "acme" 60 !! 2%nat =
    Some (false, retry_after_spec 60 1000 3000).
Proof.
  refine (rate_counter_shared_by_limits "acme" 60 0 ∅ 1000 5
            [(2000, 5); (3000, 1); (4000, 5)] _ _ _ _ 2%nat 3000 1 _).
  - lia.
  - reflexivity.
  - simpl. repeat constructor; lia.
  - simpl. repeat constructor; vm_compute; congruence.
  - reflexivity.
Defined.
